(** * CRY2-TRPC1 stochastic-resonance simulation: model and properties

    Shallow embedding of [runSimulation], [computeSimplePowerSpectrum] and
    [calculateSNR] of [src/cry2_trpc1_simulation.tsx].

    JavaScript numbers are IEEE 754 binary64 values; they are modelled by
    Rocq's primitive [float], whose [+ - * /], [sqrt] and comparisons are the
    IEEE operations JavaScript uses.  Array lengths, array indices and loop
    counters are integers below 2^53; they are modelled by [nat] and
    converted with [of_nat] wherever the source uses them in arithmetic.

    The random source is a parameter: the k-th call of [randomGaussian] in
    a run returns the k-th value of a given sequence.  The React state the
    function writes ([isRunning], [progress], [results]) is passed
    explicitly.  [randomGaussian] itself is modelled after the simulation,
    over a [Math.random] given as a sequence. *)

From Stdlib Require Import Floats ZArith QArith Qfield List Bool Lia PeanoNat.
Import ListNotations.
Close Scope Q_scope.

(* A decimal literal denotes the nearest binary64 value, in JavaScript as here. *)
#[global] Set Warnings "-inexact-float".

Local Open Scope float_scope.

(** ** JavaScript number primitives *)

Module JsNum.

(** ToNumber of a mathematical integer: round to nearest, ties to even. *)
Definition of_Z (z : Z) : float := SF2Prim (binary_normalize prec emax z 0%Z false).

Definition of_nat (n : nat) : float := of_Z (Z.of_nat n).

(** The mathematical floor of a finite number; [None] on NaN and the
    infinities.  [Z.shiftl] by a negative amount rounds towards minus
    infinity. *)
Definition floorZ (x : float) : option Z :=
  match Prim2SF x with
  | S754_zero _ => Some 0%Z
  | S754_finite s m e => Some (Z.shiftl (cond_Zopp s (Zpos m)) e)
  | S754_infinity _ | S754_nan => None
  end.

(** [Math.floor]: NaN, the infinities, the zeros and every number that is
    already an integer are returned unchanged. *)
Definition Math_floor (x : float) : float :=
  match Prim2SF x with
  | S754_finite s m e =>
      if (0 <=? e)%Z then x else of_Z (Z.shiftl (cond_Zopp s (Zpos m)) e)
  | _ => x
  end.

Definition Math_abs (x : float) : float := abs x.

Definition Math_sqrt (x : float) : float := sqrt x.

(** [Math.sign]: NaN for NaN, the argument itself for either zero, else 1 or -1. *)
Definition Math_sign (x : float) : float :=
  if is_nan x then nan
  else if x =? 0 then x
  else if 0 <? x then 1 else -1.

(** [a !== b] on numbers: NaN differs from everything, the two zeros are equal. *)
Definition strict_neq (a b : float) : bool := negb (a =? b).

(** One step of [Math.max] (ECMAScript 21.3.2.24, step 4) for a number
    that is not NaN. *)
Definition max_step (highest number : float) : float :=
  if (is_zero number && negb (get_sign number)) && (is_zero highest && get_sign highest)
  then number
  else if highest <? number then number else highest.

Fixpoint Math_max_from (highest : float) (args : list float) : float :=
  match args with
  | [] => highest
  | number :: rest =>
      if is_nan number then nan else Math_max_from (max_step highest number) rest
  end.

(** [Math.max(...args)]: minus infinity for no argument, NaN if an argument is NaN. *)
Definition Math_max (args : list float) : float := Math_max_from neg_infinity args.

(** [a % b]: the exact remainder of the truncated division, with the sign
    of the dividend. *)
Definition rem (a b : float) : float :=
  match Prim2SF a, Prim2SF b with
  | S754_nan, _ | _, S754_nan => nan
  | S754_infinity _, _ => nan
  | _, S754_zero _ => nan
  | S754_zero _, _ => a
  | _, S754_infinity _ => a
  | S754_finite sa ma ea, S754_finite _ mb eb =>
      let e := Z.min ea eb in
      let r := Z.rem (Z.shiftl (Zpos ma) (ea - e)) (Z.shiftl (Zpos mb) (eb - e)) in
      if (r =? 0)%Z then (if sa then neg_zero else zero)
      else SF2Prim (binary_normalize prec emax (cond_Zopp sa r) e false)
  end.

Definition Math_PI : float := 3.141592653589793.

(** [x.toFixed(f)] for a finite [x] below 10^21 in magnitude: the sign and
    the integer [n] for which [n / 10^f] is closest to [|x|], the larger one
    on a tie; the string shows [n] with [f] digits after the point.  [None]
    stands for the other renderings ("NaN", "Infinity", exponent forms). *)
Definition toFixed (f : nat) (x : float) : option (bool * Z) :=
  match Prim2SF x with
  | S754_zero _ => Some (false, 0%Z)
  | S754_finite s m e =>
      let scaled := (Zpos m * 10 ^ Z.of_nat f)%Z in
      let n := if (0 <=? e)%Z then Z.shiftl scaled e
               else ((scaled + 2 ^ (- e - 1)) / 2 ^ (- e))%Z in
      if (n <? 10 ^ (21 + Z.of_nat f))%Z then Some (s, n) else None
  | S754_infinity _ | S754_nan => None
  end.

End JsNum.

(** ** The transcendental functions of [Math]

    ECMAScript leaves [Math.sin], [Math.cos], [Math.log10] and [Math.pow]
    implementation-approximated: their values depend on the engine.  The
    model takes them as a parameter. *)

Record JsMath : Type := {
  Math_sin : float -> float;
  Math_cos : float -> float;
  Math_log10 : float -> float;
  Math_pow : float -> float -> float
}.

(** One admissible implementation, by argument reduction and power series,
    so that the model runs. *)

Module RefMath.
Import JsNum.

Definition two_pi : float := 6.283185307179586.
Definition ln2 : float := 0.6931471805599453.
Definition ln10 : float := 2.302585092994046.

Definition reduce (x : float) : float := x - Math_floor (x / two_pi + 0.5) * two_pi.

(** [acc + sum of the next n terms], where each term is the previous one
    times [- r2 / ((k+1)(k+2))]. *)
Fixpoint alt_series (n : nat) (k term r2 acc : float) : float :=
  match n with
  | O => acc
  | S n' =>
      let term' := - term * r2 / ((k + 1) * (k + 2)) in
      alt_series n' (k + 2) term' r2 (acc + term')
  end.

Definition sin (x : float) : float :=
  if x =? 0 then x else let r := reduce x in alt_series 16 1 r (r * r) r.

Definition cos (x : float) : float :=
  let r := reduce x in alt_series 16 0 1 (r * r) 1.

(** [s + s^3/3 + s^5/5 + ...], n terms after the first. *)
Fixpoint atanh_series (n : nat) (k pw s2 acc : float) : float :=
  match n with
  | O => acc
  | S n' =>
      let pw' := pw * s2 in
      atanh_series n' (k + 2) pw' s2 (acc + pw' / (k + 2))
  end.

Definition ln (x : float) : float :=
  if is_nan x then nan
  else if x <? 0 then nan
  else if x =? 0 then neg_infinity
  else if x =? infinity then infinity
  else
    let (m, e) := Z.frexp x in
    let '(m, e) := if m <? 0.7071067811865476 then (m * 2, (e - 1)%Z) else (m, e) in
    let s := (m - 1) / (m + 1) in
    of_Z e * ln2 + 2 * atanh_series 12 1 s (s * s) s.

Definition log10 (x : float) : float := ln x / ln10.

Fixpoint exp_series (n : nat) (k term r acc : float) : float :=
  match n with
  | O => acc
  | S n' =>
      let term' := term * r / k in
      exp_series n' (k + 1) term' r (acc + term')
  end.

Definition exp (x : float) : float :=
  match floorZ (x / ln2 + 0.5) with
  | Some k => Z.ldexp (exp_series 16 1 1 (x - of_Z k * ln2) 1) k
  | None => if x <? 0 then 0 else x
  end.

Fixpoint pow_pos (x : float) (n : positive) : float :=
  match n with
  | xH => x
  | xO n' => let y := pow_pos x n' in y * y
  | xI n' => let y := pow_pos x n' in x * (y * y)
  end.

Definition pow (x y : float) : float :=
  match floorZ y with
  | Some n =>
      if of_Z n =? y then
        match n with
        | Z0 => 1
        | Zpos k => pow_pos x k
        | Zneg k => 1 / pow_pos x k
        end
      else exp (y * ln x)
  | None => exp (y * ln x)
  end.

Definition math : JsMath :=
  {| Math_sin := sin; Math_cos := cos; Math_log10 := log10; Math_pow := pow |}.

End RefMath.

(** ** Data *)

(** [params], the component state read by [runSimulation] (lines 9-15). *)
Record Params : Type := {
  T : float;
  B_field : float;
  F_mag : float;
  dt : float;
  t_end : float
}.

(** The initial value of [params]. *)
Definition default_params : Params :=
  {| T := 310; B_field := 50e-6; F_mag := 2.0e-12; dt := 1e-10; t_end := 0.01 |}.

Module ChartPoint.
Record t : Type := { time : float; position : float }.
End ChartPoint.

Module HistBin.
Record t : Type := { x : float; density : float }.
End HistBin.

Module SpectrumEntry.
Record t : Type := { freq : float; power : float }.
End SpectrumEntry.

(** The metrics are modelled by the numbers the source computes; the
    source then renders them for display, [mean] with [toExponential(3)],
    [std] with [toFixed(3)], [rate], [barrier] and [snr] with [toFixed(2)]
    ([JsNum.toFixed] above). *)
Record Metrics : Type := {
  mean : float;
  std : float;
  switches : nat;
  rate : float;
  barrier : float;
  snr : float
}.

Record Results : Type := {
  chartData : list ChartPoint.t;
  histData : list HistBin.t;
  spectrum : list SpectrumEntry.t;
  metrics : Metrics
}.

(** The state of the component that [runSimulation] writes. *)
Record Component : Type := {
  isRunning : bool;
  progress : float;
  results : option Results
}.

(** The error kinds the specification names.  The source has no [throw]. *)
Inductive Error : Type := InvalidParameter | NumericInstability | EmptySampleSet.

(** How a call ends: it returns, it throws, or its loop never exits. *)
Inductive Outcome (A : Type) : Type :=
| Returns (a : A)
| Throws (e : Error)
| Hangs.

Arguments Returns {A} a.
Arguments Throws {A} e.
Arguments Hangs {A}.

(** The variables of the Euler-Maruyama loop (lines 35-39), with the number
    of values drawn so far from the random source. *)
Module Loop.
Record state : Type := {
  x : float;
  trajectory : list float;
  times : list float;
  switchCount : nat;
  lastSign : float;
  shown : float;
  draws : nat
}.
End Loop.

(** ** Physical constants (lines 18-19) *)

Definition k_B : float := 1.380649e-23.
Definition x_0 : float := 1.0e-9.

(** ** The simulation (lines 21-163) *)

Section Simulation.
Import JsNum.

Variable M : JsMath.

(** The random source with [randomGaussian] stubbed: its k-th call of a run
    returns [noise k]. *)
Variable noise : nat -> float.

(** *** Run-wide constants (lines 26-33, 42-44) *)

Definition k_B_T (p : Params) : float := k_B * T p.
Definition delta_U (p : Params) : float := 6 * k_B_T p.
Definition a (p : Params) : float := 24 * k_B_T p / (x_0 * x_0).
Definition b (p : Params) : float := a p / (x_0 * x_0).
Definition gamma : float := 1e-7.

Definition n_steps (p : Params) : float := Math_floor (t_end p / dt p).
Definition downsample (p : Params) : float :=
  Math_max [1; Math_floor (n_steps p / 5000)].

Definition Phi_baseline : float := 0.25.
Definition Phi_S : float :=
  Phi_baseline + 0.05 * Math_sin M (2 * Math_PI * 100 * 0).
Definition F_coupling (p : Params) : float := F_mag p * (Phi_S - Phi_baseline).

(** Line 52. *)
Definition F_det (p : Params) (x : float) : float :=
  a p * x - b p * x * x * x + F_coupling p.

(** *** The loop (lines 35-39, 47-75) *)

(** Number of iterations of [for (let i = 0; i < Math.floor(q); i++)].
    The bound is an integer, NaN or an infinity.  The counter is a number
    too: [i++] stops growing at 2^53, so the loop never exits when the
    bound is larger. *)
Definition trip_count (q : float) : option nat :=
  match floorZ q with
  | Some z => if (z <=? 2 ^ 53)%Z then Some (Z.to_nat z) else None
  | None => if 0 <? q then None else Some O
  end.

Definition loop_init : Loop.state :=
  {| Loop.x := - x_0;
     Loop.trajectory := [];
     Loop.times := [];
     Loop.switchCount := O;
     Loop.lastSign := Math_sign (- x_0);
     Loop.shown := 0;
     Loop.draws := O |}.

Definition loop_body (p : Params) (i : nat) (st : Loop.state) : Loop.state :=
  let R := noise (Loop.draws st) in
  let F := F_det p (Loop.x st) in
  let noise_term := Math_sqrt (2 * k_B_T p * dt p / gamma) * R in
  let x := Loop.x st + (dt p / gamma) * F + noise_term in
  let currentSign := Math_sign x in
  let switched := strict_neq currentSign (Loop.lastSign st) && (0.1 * x_0 <? Math_abs x) in
  let stored := rem (of_nat i) (downsample p) =? 0 in
  let report := rem (of_nat i) (Math_floor (n_steps p / 20)) =? 0 in
  {| Loop.x := x;
     Loop.trajectory :=
       if stored then Loop.trajectory st ++ [x / x_0] else Loop.trajectory st;
     Loop.times :=
       if stored then Loop.times st ++ [of_nat i * dt p * 1e6] else Loop.times st;
     Loop.switchCount :=
       if switched then S (Loop.switchCount st) else Loop.switchCount st;
     Loop.lastSign := if switched then currentSign else Loop.lastSign st;
     Loop.shown := if report then of_nat i / n_steps p * 100 else Loop.shown st;
     Loop.draws := S (Loop.draws st) |}.

(** The state after the iterations [i = 0, ..., n - 1]. *)
Definition run_loop (p : Params) (n : nat) : Loop.state :=
  fold_left (fun st i => loop_body p i st) (seq 0 n) loop_init.

(** *** Moments (lines 78-83) *)

Definition mean_of (trajectory : list float) : float :=
  fold_left (fun a b => a + b) trajectory 0 / of_nat (length trajectory).

Definition variance_of (trajectory : list float) : float :=
  let mean_x := mean_of trajectory in
  fold_left (fun a b => a + Math_pow M (b - mean_x) 2) trajectory 0
  / of_nat (length trajectory).

(** *** Histogram (lines 86-99) *)

Definition hist_bins : nat := 50.
Definition x_min : float := -2.
Definition x_max : float := 2.
Definition bin_width : float := (x_max - x_min) / of_nat hist_bins.

(** [Math.floor((val - x_min) / bin_width)], read as an integer. *)
Definition bin_of (val : float) : option Z := floorZ ((val - x_min) / bin_width).

(** [histogram[i]++] for an index inside the array. *)
Fixpoint incr (i : nat) (histogram : list nat) : list nat :=
  match histogram, i with
  | [], _ => []
  | count :: rest, O => S count :: rest
  | count :: rest, S i' => count :: incr i' rest
  end.

(** The body of the [forEach] (lines 92-93): a NaN or infinite [bin] fails
    both comparisons. *)
Definition hist_add (histogram : list nat) (val : float) : list nat :=
  match bin_of val with
  | Some bin =>
      if (0 <=? bin)%Z && (bin <? Z.of_nat hist_bins)%Z
      then incr (Z.to_nat bin) histogram
      else histogram
  | None => histogram
  end.

Definition histogram_of (trajectory : list float) : list nat :=
  fold_left hist_add trajectory (repeat O hist_bins).

Definition hist_point (total : nat) (ic : nat * nat) : HistBin.t :=
  {| HistBin.x := x_min + (of_nat (fst ic) + 0.5) * bin_width;
     HistBin.density := of_nat (snd ic) / of_nat total / bin_width |}.

Definition histData_of (trajectory : list float) : list HistBin.t :=
  let histogram := histogram_of trajectory in
  map (hist_point (length trajectory)) (combine (seq 0 (length histogram)) histogram).

(** *** Power spectrum (lines 137-156) *)

(** The body of the inner loop (lines 144-146) on the pair (real, imag). *)
Definition dft_term (data : list float) (k : nat) (acc : float * float) (n : nat)
  : float * float :=
  let N := length data in
  let angle := 2 * Math_PI * of_nat k * of_nat n / of_nat N in
  (fst acc + nth n data nan * Math_cos M angle,
   snd acc - nth n data nan * Math_sin M angle).

Definition dft (data : list float) (k : nat) : float * float :=
  fold_left (dft_term data k) (seq 0 (length data)) (0, 0).

(** Lines 148-152. *)
Definition spectrum_entry (data : list float) (k : nat) : SpectrumEntry.t :=
  let N := of_nat (length data) in
  let (real, imag) := dft data k in
  let power := (real * real + imag * imag) / (N * N) in
  {| SpectrumEntry.freq := of_nat k * 10;
     SpectrumEntry.power := Math_log10 M (power + 1e-10) |}.

(** The outer loop [for (let k = 0; k < N / 2; k++)].  [N / 2] is the exact
    half of the integer [N], so the guard is [2 k < N].  At most [N]
    iterations pass it. *)
Fixpoint spectrum_loop (fuel : nat) (data : list float) (k : nat)
  (spectrum : list SpectrumEntry.t) : list SpectrumEntry.t :=
  match fuel with
  | O => spectrum
  | S fuel' =>
      if (2 * k <? length data)%nat
      then spectrum_loop fuel' data (S k) (spectrum ++ [spectrum_entry data k])
      else spectrum
  end.

Definition computeSimplePowerSpectrum (data : list float) : list SpectrumEntry.t :=
  firstn 100 (spectrum_loop (length data) data O []).

(** Lines 158-163. *)
Definition calculateSNR (spectrum : list SpectrumEntry.t) : float :=
  if (length spectrum =? 0)%nat then 0
  else
    let signal := Math_max (map SpectrumEntry.power spectrum) in
    let noise := fold_left (fun a b => a + SpectrumEntry.power b) spectrum 0
                 / of_nat (length spectrum) in
    signal - noise.

(** *** Assembling the result (lines 77-123) *)

Definition chart_point (tx : float * float) : ChartPoint.t :=
  {| ChartPoint.time := fst tx; ChartPoint.position := snd tx |}.

(** [times] and [trajectory] grow together, so pairing them position by
    position is [times.map((t, i) => ... trajectory[i])]. *)
Definition analyse (p : Params) (st : Loop.state) : Results :=
  let trajectory := Loop.trajectory st in
  let mean_x := mean_of trajectory in
  let std_dev := Math_sqrt (variance_of trajectory) in
  let switch_rate := of_nat (Loop.switchCount st) / t_end p in
  let chart := map chart_point (combine (Loop.times st) trajectory) in
  let fft_size := Nat.min 1024 (length trajectory) in
  let spectrum := computeSimplePowerSpectrum (firstn fft_size trajectory) in
  {| chartData := firstn 2000 chart;
     histData := histData_of trajectory;
     spectrum := spectrum;
     metrics :=
       {| mean := mean_x;
          std := std_dev;
          switches := Loop.switchCount st;
          rate := switch_rate;
          barrier := delta_U p / k_B_T p;
          snr := calculateSNR spectrum |} |}.

(** [runSimulation], with [params] and the component state [c] it starts
    from.  Lines 22-23 set [isRunning] and [progress] and keep [results];
    the timer callback (lines 26-126) reads none of the three and, when the
    loop exits, overwrites them all. *)
Definition runSimulation (p : Params) (c : Component) : Outcome Component :=
  match trip_count (t_end p / dt p) with
  | None => Hangs
  | Some n =>
      let st := run_loop p n in
      Returns {| isRunning := false;
                 progress := 100;
                 results := Some (analyse p st) |}
  end.

End Simulation.

(** ** The specification's formulas

    Definitions that follow the words of the specification; the theorems
    below compare them with the model of the source above. *)

Section Specification.
Import JsNum.

Variable M : JsMath.
Variable noise : nat -> float.

(** "Phi_S(t) = Phi_baseline + Phi_amplitude sin(2 pi 100 t)", with
    Phi_baseline = 0.25 and Phi_amplitude = 0.05. *)
Definition spec_Phi_S (t : float) : float :=
  0.25 + 0.05 * Math_sin M (2 * Math_PI * 100 * t).

(** "F_det(x) = a x - b x^3 + F_coupling", with "a = 24 k_B_T / x_0^2",
    "b = a / x_0^2" and the coupling evaluated at the fixed instant t = 0. *)
Definition spec_force (p : Params) (x : float) : float :=
  let k_B_T := k_B * T p in
  let a := 24 * k_B_T / (x_0 * x_0) in
  let b := a / (x_0 * x_0) in
  a * x - b * x * x * x + F_mag p * (spec_Phi_S 0 - 0.25).

(** "noise = sqrt(2 k_B_T dt / gamma) R" and "x <- x + (dt / gamma) F_det + noise",
    with gamma = 1e-7. *)
Definition spec_step (p : Params) (x R : float) : float :=
  x + (dt p / 1e-7) * spec_force p x + sqrt (2 * (k_B * T p) * dt p / 1e-7) * R.

(** "Initialize position x = -x_0", then one step per variate drawn. *)
Fixpoint spec_position (p : Params) (i : nat) : float :=
  match i with
  | O => - x_0
  | S j => spec_step p (spec_position p j) (noise j)
  end.

(** The position after each of the first [n] integration steps, before any
    downsampling. *)
Definition raw_positions (p : Params) (n : nat) : list float :=
  map (fun i => spec_position p (S i)) (seq 0 n).

(** "count of sign changes in raw position that exceed a hysteresis
    threshold (|x| > 0.1 x_0), counted against the trajectory's own history". *)
Fixpoint count_switches (last_sign : float) (xs : list float) : nat :=
  match xs with
  | [] => O
  | x :: rest =>
      if strict_neq (Math_sign x) last_sign && (0.1 * x_0 <? Math_abs x)
      then S (count_switches (Math_sign x) rest)
      else count_switches last_sign rest
  end.

(** The sign remembered after the positions [xs]. *)
Fixpoint final_sign (last_sign : float) (xs : list float) : float :=
  match xs with
  | [] => last_sign
  | x :: rest =>
      if strict_neq (Math_sign x) last_sign && (0.1 * x_0 <? Math_abs x)
      then final_sign (Math_sign x) rest
      else final_sign last_sign rest
  end.

(** A sum "Sigma_n f(n)" over n = 0, ..., N - 1, added in that order. *)
Definition float_sum (f : nat -> float) (N : nat) : float :=
  fold_left (fun acc n => acc + f n) (seq 0 N) 0.

(** "real = Sigma_n data[n] cos(2 pi k n / N)" and the sum
    "Sigma_n data[n] sin(2 pi k n / N)" whose opposite is "imag". *)
Definition spec_cos_sum (data : list float) (k : nat) : float :=
  let N := length data in
  float_sum (fun n => nth n data nan
                      * Math_cos M (2 * Math_PI * of_nat k * of_nat n / of_nat N)) N.

Definition spec_sin_sum (data : list float) (k : nat) : float :=
  let N := length data in
  float_sum (fun n => nth n data nan
                      * Math_sin M (2 * Math_PI * of_nat k * of_nat n / of_nat N)) N.

(** "power = (real^2 + imag^2) / N^2", "log10_power = log10(power + 1e-10)"
    and "frequency = k 10". *)
Definition spec_entry (data : list float) (k : nat) : SpectrumEntry.t :=
  let N := of_nat (length data) in
  let re := spec_cos_sum data k in
  let sn := spec_sin_sum data k in
  {| SpectrumEntry.freq := of_nat k * 10;
     SpectrumEntry.power :=
       Math_log10 M ((re * re + sn * sn) / (N * N) + 1e-10) |}.

End Specification.

(** Two numbers with the same value: identical, or zeros of either sign. *)
Definition same_number (u v : float) : Prop :=
  u = v \/ (is_zero u = true /\ is_zero v = true).

(** A sample is binned when its bin index floor((value + 2) / bin_width)
    lies in [0, 50); "samples_binned" counts them. *)
Definition binned (val : float) : bool :=
  match bin_of val with
  | Some bin => (0 <=? bin)%Z && (bin <? 50)%Z
  | None => false
  end.

Definition samples_binned (trajectory : list float) : nat :=
  length (filter binned trajectory).

(** "Sigma density_i bin_width", added in the order of the bins. *)
Definition density_integral (hist : list HistBin.t) : float :=
  fold_left (fun acc bin => acc + HistBin.density bin * bin_width) hist 0.

(** The same sum for the counts [histogram] read in exact rational
    arithmetic, with a bin width [w]. *)
Definition exact_density_integral (w : Q) (histogram : list nat) (total : nat) : Q :=
  fold_left (fun acc count =>
     acc + inject_Z (Z.of_nat count) / inject_Z (Z.of_nat total) / w * w)%Q
    histogram 0%Q.


(** ** The random source (lines 130-135) *)

Section RandomSource.
Import JsNum.

Variable M : JsMath.

(** [Math.log] is implementation-approximated like the functions of
    [JsMath]. *)
Variable Math_log : float -> float.

(** [Math.random] stubbed: its k-th call returns [random k]. *)
Variable random : nat -> float.

(** [while (u === 0) u = Math.random()] entered with [u = 0] after [cursor]
    calls of [Math.random]: the first value drawn that is not zero, with the
    number of calls made by then; [None] when [fuel] draws in a row are
    zero. *)
Fixpoint draw_nonzero (fuel cursor : nat) : option (float * nat) :=
  match fuel with
  | O => None
  | S fuel' =>
      let u := random cursor in
      if u =? 0 then draw_nonzero fuel' (S cursor) else Some (u, S cursor)
  end.

(** Line 134. *)
Definition box_muller (u v : float) : float :=
  Math_sqrt (-2.0 * Math_log u) * Math_cos M (2.0 * Math_PI * v).

Definition randomGaussian (fuel cursor : nat) : option (float * nat) :=
  match draw_nonzero fuel cursor with
  | None => None
  | Some (u, cursor1) =>
      match draw_nonzero fuel cursor1 with
      | None => None
      | Some (v, cursor2) => Some (box_muller u v, cursor2)
      end
  end.

(** The loop of [runSimulation] with [randomGaussian] in place of the
    stubbed noise: the state after the iterations [i = 0, ..., n - 1] and
    the number of calls of [Math.random] made. *)
Fixpoint run_loop_random (fuel : nat) (p : Params) (n : nat)
  : option (Loop.state * nat) :=
  match n with
  | O => Some (loop_init, O)
  | S n' =>
      match run_loop_random fuel p n' with
      | None => None
      | Some (st, cursor) =>
          match randomGaussian fuel cursor with
          | None => None
          | Some (R, cursor') => Some (loop_body M (fun _ => R) p n' st, cursor')
          end
      end
  end.

(** [runSimulation] on the stubbed [Math.random]; the outer [None] when a
    rejection loop of [randomGaussian] used up [fuel]. *)
Definition runSimulation_random (fuel : nat) (p : Params) (c : Component)
  : option (Outcome Component) :=
  match trip_count (t_end p / dt p) with
  | None => Some Hangs
  | Some n =>
      match run_loop_random fuel p n with
      | None => None
      | Some (st, _) =>
          Some (Returns {| isRunning := false;
                           progress := 100;
                           results := Some (analyse M p st) |})
      end
  end.

(** The noise sequence [randomGaussian] makes of a [Math.random] that never
    returns zero: call k reads the values 2k and 2k + 1. *)
Definition gaussian_noise (k : nat) : float :=
  box_muller (random (2 * k)) (random (2 * k + 1)).

End RandomSource.

(** ** Notions used in the statements about the loop *)

(** The test of line 66 on the step [i]. *)
Definition stored (p : Params) (i : nat) : bool :=
  JsNum.rem (JsNum.of_nat i) (downsample p) =? 0.

(** The steps in [0, n) whose position is stored. *)
Definition stored_steps (p : Params) (n : nat) : list nat :=
  filter (stored p) (seq 0 n).

(** The bin index of [val] (line 92) is [bin]. *)
Definition in_bin (bin : nat) (val : float) : bool :=
  match bin_of val with
  | Some z => (z =? Z.of_nat bin)%Z
  | None => false
  end.

(** The number of samples with the bin index [bin]. *)
Definition bin_count (bin : nat) (trajectory : list float) : nat :=
  length (filter (in_bin bin) trajectory).

(** The sign [lastSign] has after [k] counted switches. *)
Definition sign_after (k : nat) : float := if Nat.even k then -1 else 1.

(** ** Concrete inputs *)

(** The component before a first run. *)
Definition idle : Component :=
  {| isRunning := false; progress := 0; results := None |}.

(** A component that shows the result of an earlier run. *)
Definition busy (r : Results) : Component :=
  {| isRunning := true; progress := 55; results := Some r |}.

(** The default parameters with a run of three steps. *)
Definition three_steps : Params :=
  {| T := 310; B_field := 50e-6; F_mag := 2.0e-12; dt := 1e-10; t_end := 3e-10 |}.

(** The default parameters with [t_end = 0]. *)
Definition zero_time : Params :=
  {| T := 310; B_field := 50e-6; F_mag := 2.0e-12; dt := 1e-10; t_end := 0 |}.

(** Three steps at the smallest positive temperature and at 3 K. *)
Definition coldest : Params :=
  {| T := 5e-324; B_field := 50e-6; F_mag := 2.0e-12; dt := 1e-10; t_end := 3e-10 |}.

Definition three_kelvin : Params :=
  {| T := 3; B_field := 50e-6; F_mag := 2.0e-12; dt := 1e-10; t_end := 3e-10 |}.

(** Three steps with another field and no coupling force. *)
Definition uncoupled : Params :=
  {| T := 310; B_field := 0; F_mag := 0; dt := 1e-10; t_end := 3e-10 |}.

(** The parameters after the coupling field has been emptied: line 197
    stores [parseFloat(text) * 1e-12], and [parseFloat] of the empty text is
    NaN. *)
Definition emptied_coupling : Params :=
  {| T := 310; B_field := 50e-6; F_mag := nan * 1e-12; dt := 1e-10; t_end := 3e-10 |}.

(** A noise sequence that throws the particle next to the origin and then
    moves it across. *)
Definition kicks (k : nat) : float :=
  match k with
  | O => 341.7
  | S O => 0.2
  | S (S O) => -0.3
  | _ => 0
  end.

(** The same values for the first three draws, others afterwards. *)
Definition kicks' (k : nat) : float :=
  match k with
  | O => 341.7
  | S O => 0.2
  | S (S O) => -0.3
  | _ => 1
  end.

(** A noise sequence that throws the particle into the other well and
    back. *)
Definition jumps (k : nat) : float :=
  match k with
  | O => 700
  | S O => -700
  | _ => 0
  end.

Definition quiet (k : nat) : float := 0.

(** Seven samples inside (-2, 2). *)
Definition seven_samples : list float := [0.1; 0.5; 0.9; 1.5; -1.5; 0.3; -0.3].

(** ** More concrete inputs *)

(** A [Math.random] that never returns zero. *)
Definition uniforms (k : nat) : float := if Nat.even k then 0.25 else 0.75.

(** The noise of [kicks] with a NaN as second variate. *)
Definition broken (k : nat) : float :=
  match k with
  | S O => nan
  | _ => kicks k
  end.

(** ** Notions used in the proofs *)

(** [SFopposite u v]: [u] is [- v], or both are zeros. *)
Definition SFopposite (u v : spec_float) : Prop :=
  u = SFopp v \/ ((exists s, u = S754_zero s) /\ (exists s, v = S754_zero s)).

Definition opposite (u v : float) : Prop := SFopposite (Prim2SF u) (Prim2SF v).

(** [located z n mrs]: the shift record [mrs] holds the quotient of [z] by
    [2^n] and the position of the remainder with respect to the half. *)
Definition located (z : Z) (n : nat) (mrs : shr_record) : Prop :=
  let q := shr_m mrs in
  let rem := (z - 2 ^ Z.of_nat n * q)%Z in
  (0 <= q)%Z /\ (0 <= rem < 2 ^ Z.of_nat n)%Z /\
  loc_of_shr_record mrs
  = if (rem =? 0)%Z then loc_Exact
    else loc_Inexact (2 * rem ?= 2 ^ Z.of_nat n)%Z.

(** [signed s u]: [u] has the sign bit [s], or is NaN. *)
Definition signed (s : bool) (u : spec_float) : Prop :=
  match u with
  | S754_nan => True
  | S754_zero s' | S754_infinity s' | S754_finite s' _ _ => s' = s
  end.

Definition nonneg (u : float) : Prop := signed false (Prim2SF u).

(** The mantissa of 6 = 3 * 2^51 * 2^-50. *)
Definition six_mantissa : positive := 6755399441055744.

(** A number that is neither NaN nor negative: a zero of sign +, a positive
    number or plus infinity. *)
Definition plain (u : float) : Prop := Prim2SF u <> S754_nan /\ nonneg u.

(** * Properties *)

(** ** Facts about binary64 arithmetic

    Each is read off the IEEE specification of the primitive operations
    ([FloatAxioms]) by cases on the class of the operands. *)

Module FloatFacts.

Lemma SFcompare_antisym (u v : spec_float) :
  SFcompare v u = option_map CompOpp (SFcompare u v).
Proof.
  destruct u as [su| su| |su mu eu], v as [sv| sv| |sv mv ev]; simpl;
    try reflexivity;
    try (destruct su; reflexivity);
    try (destruct sv; reflexivity);
    try (destruct su, sv; reflexivity).
  destruct su, sv; simpl; try reflexivity;
    rewrite (Z.compare_antisym eu ev);
    destruct (eu ?= ev)%Z; simpl; try reflexivity;
    change (Pos.compare_cont Eq mv mu) with (Pos.compare mv mu);
    change (Pos.compare_cont Eq mu mv) with (Pos.compare mu mv);
    rewrite (Pos.compare_antisym mu mv); simpl; try reflexivity;
    destruct (mu ?= mv)%positive; reflexivity.
Qed.

(** [a <= b] excludes [b < a]. *)
Lemma leb_not_gt (u v : float) : (u <=? v) = true -> (v <? u) = false.
Proof.
  rewrite FloatAxioms.leb_spec, FloatAxioms.ltb_spec. unfold SFleb, SFltb.
  rewrite (SFcompare_antisym (Prim2SF u) (Prim2SF v)).
  destruct (SFcompare (Prim2SF u) (Prim2SF v)) as [[ | | ]|]; simpl;
    intros H; try reflexivity; discriminate H.
Qed.


(** The numbers [is_zero] accepts are the two zeros. *)
Lemma is_zero_inv (z : float) :
  is_zero z = true -> exists s, Prim2SF z = S754_zero s.
Proof.
  unfold is_zero. rewrite FloatAxioms.eqb_spec. change (Prim2SF zero) with (S754_zero false).
  destruct (Prim2SF z) as [s| s| |s m e]; simpl.
  - intros _. exists s. reflexivity.
  - destruct s; discriminate.
  - discriminate.
  - destruct s; discriminate.
Qed.

Lemma is_zero_intro (z : float) (s : bool) :
  Prim2SF z = S754_zero s -> is_zero z = true.
Proof.
  intros H. unfold is_zero. rewrite FloatAxioms.eqb_spec, H. reflexivity.
Qed.

(** A finite number is a zero or has a mantissa and an exponent. *)
Lemma is_finite_inv (f : float) :
  is_finite f = true ->
  (exists s, Prim2SF f = S754_zero s) \/ (exists s m e, Prim2SF f = S754_finite s m e).
Proof.
  unfold is_finite, is_nan, is_infinity.
  rewrite !FloatAxioms.eqb_spec, abs_spec. change (Prim2SF infinity) with (S754_infinity false).
  destruct (Prim2SF f) as [s| s| |s m e]; simpl.
  - intros _. left. exists s. reflexivity.
  - destruct s; discriminate.
  - discriminate.
  - intros _. right. exists s, m, e. reflexivity.
Qed.

(** A finite number times a zero is a zero. *)
Lemma mul_zero_r (f z : float) :
  is_finite f = true -> is_zero z = true -> is_zero (f * z) = true.
Proof.
  intros Hf Hz.
  destruct (is_zero_inv z Hz) as [sz Ez].
  destruct (is_finite_inv f Hf) as [[s E]|[s [m [e E]]]];
    apply (is_zero_intro _ (xorb s sz));
    rewrite mul_spec, E, Ez; reflexivity.
Qed.

(** Adding a zero changes at most the sign of a zero. *)
Lemma add_zero_r (v z : float) :
  is_zero z = true ->
  v + z = v \/ (is_zero v = true /\ is_zero (v + z) = true).
Proof.
  intros Hz. destruct (is_zero_inv z Hz) as [sz Ez].
  assert (Hadd : Prim2SF (v + z) = SF64add (Prim2SF v) (S754_zero sz))
    by (rewrite add_spec, Ez; reflexivity).
  destruct (Prim2SF v) as [s| s| |s m e] eqn:Ev.
  - right. split.
    + apply (is_zero_intro _ s). exact Ev.
    + destruct s, sz; simpl in Hadd; eapply is_zero_intro; exact Hadd.
  - left. apply Prim2SF_inj. rewrite Hadd, Ev. reflexivity.
  - left. apply Prim2SF_inj. rewrite Hadd, Ev. reflexivity.
  - left. apply Prim2SF_inj. rewrite Hadd, Ev. reflexivity.
Qed.


(** *** Opposites

    Subtracting from a number what is added to its opposite keeps them
    opposite, and opposite numbers have the same square. *)

Lemma binary_round_aux_opp (s : bool) (m e : Z) (l : location) :
  binary_round_aux prec emax (negb s) m e l
  = SFopp (binary_round_aux prec emax s m e l).
Proof.
  unfold binary_round_aux.
  destruct (shr_fexp prec emax m e l) as [mrs' e'].
  destruct (shr_fexp prec emax _ e' loc_Exact) as [mrs'' e''].
  destruct (shr_m mrs''); simpl; try reflexivity.
  destruct (e'' <=? 971)%Z; reflexivity.
Qed.

Lemma binary_normalize_opp (z e : Z) :
  SFopposite (binary_normalize prec emax (- z) e false)
             (binary_normalize prec emax z e false).
Proof.
  destruct z as [|m|m]; simpl.
  - right. split; exists false; reflexivity.
  - left. unfold binary_round.
    destruct (shl_align m e _) as [mz ez].
    apply (binary_round_aux_opp false).
  - left. unfold binary_round.
    destruct (shl_align m e _) as [mz ez].
    rewrite (binary_round_aux_opp false). 
    destruct (binary_round_aux prec emax false (Z.pos mz) ez loc_Exact)
      as [[ | ]|[ | ]| |[ | ] m' e']; reflexivity.
Qed.

Lemma cond_Zopp_negb (s : bool) (m : Z) : cond_Zopp (negb s) m = (- cond_Zopp s m)%Z.
Proof. destruct s; simpl; lia. Qed.

Lemma SFopposite_sub_add (u v t : spec_float) :
  SFopposite u v -> SFopposite (SF64sub u t) (SF64add v t).
Proof.
  intros [E|[[su Eu] [sv Ev]]].
  - subst u.
    destruct v as [sv| sv| |sv mv ev], t as [st| st| |st mt et];
      try (left; reflexivity);
      try (destruct sv, st; (left; reflexivity) || (right; split; eexists; reflexivity)).
    unfold SF64sub, SF64add, SFsub, SFadd, SFopp.
    rewrite cond_Zopp_negb.
    match goal with
    | |- SFopposite (binary_normalize _ _ (- ?a - ?c) ?e _) _ =>
        replace (- a - c)%Z with (- (a + c))%Z by lia
    end.
    apply binary_normalize_opp.
  - subst u v.
    destruct t as [st| st| |st mt et];
      try (left; reflexivity);
      try (destruct su, sv, st; (left; reflexivity) || (right; split; eexists; reflexivity)).
Qed.

Lemma SFopposite_square (u v : spec_float) :
  SFopposite u v -> SF64mul u u = SF64mul v v.
Proof.
  intros [E|[[su Eu] [sv Ev]]].
  - subst u. destruct v as [s| s| |s m e]; simpl; try reflexivity;
      destruct s; reflexivity.
  - subst u v. destruct su, sv; reflexivity.
Qed.

Lemma opposite_zero : opposite 0 0.
Proof. right. split; exists false; reflexivity. Qed.

Lemma opposite_sub_add (u v t : float) : opposite u v -> opposite (u - t) (v + t).
Proof.
  unfold opposite. rewrite sub_spec, add_spec. apply SFopposite_sub_add.
Qed.

Lemma opposite_square (u v : float) : opposite u v -> u * u = v * v.
Proof.
  intros H. apply Prim2SF_inj. rewrite !mul_spec. apply SFopposite_square, H.
Qed.

End FloatFacts.

Module OrderFacts.

Lemma is_nan_inv (u : float) : is_nan u = false -> Prim2SF u <> S754_nan.
Proof.
  unfold is_nan. rewrite FloatAxioms.eqb_spec. intros H E. rewrite E in H.
  discriminate H.
Qed.

Lemma SFcompare_defined (u v : spec_float) :
  u <> S754_nan -> v <> S754_nan -> SFcompare u v <> None.
Proof.
  destruct u, v; simpl; intros Hu Hv; try discriminate; congruence.
Qed.

Lemma SFleb_refl (u : spec_float) : u <> S754_nan -> SFleb u u = true.
Proof.
  unfold SFleb. destruct u as [s| s| |s m e]; simpl; intros H.
  - reflexivity.
  - destruct s; reflexivity.
  - congruence.
  - destruct s; rewrite Z.compare_refl;
      change (Pos.compare_cont Eq m m) with (Pos.compare m m);
      rewrite Pos.compare_refl; reflexivity.
Qed.

Lemma SFleb_total (u v : spec_float) :
  u <> S754_nan -> v <> S754_nan -> SFltb u v = false -> SFleb v u = true.
Proof.
  intros Hu Hv. unfold SFltb, SFleb.
  rewrite (FloatFacts.SFcompare_antisym u v).
  pose proof (SFcompare_defined u v Hu Hv) as Hd.
  destruct (SFcompare u v) as [[ | | ]|]; simpl; congruence.
Qed.

Lemma SFltb_leb (u v : spec_float) : SFltb u v = true -> SFleb u v = true.
Proof.
  unfold SFltb, SFleb. destruct (SFcompare u v) as [[ | | ]|]; congruence.
Qed.

Ltac compare_cases :=
  repeat match goal with
  | |- context [(?a ?= ?b)%Z] => destruct (Z.compare_spec a b)
  | H : context [(?a ?= ?b)%Z] |- _ => destruct (Z.compare_spec a b)
  | |- context [Pos.compare_cont Eq ?a ?b] =>
      change (Pos.compare_cont Eq a b) with (Pos.compare a b);
      destruct (Pos.compare_spec a b)
  | H : context [Pos.compare_cont Eq ?a ?b] |- _ =>
      change (Pos.compare_cont Eq a b) with (Pos.compare a b) in H;
      destruct (Pos.compare_spec a b)
  end.

Lemma SFleb_trans (u v w : spec_float) :
  SFleb u v = true -> SFleb v w = true -> SFleb u w = true.
Proof.
  unfold SFleb.
  destruct u as [su| su| |su mu eu], v as [sv| sv| |sv mv ev],
           w as [sw| sw| |sw mw ew]; simpl;
    try (intros; reflexivity); try (intros; discriminate);
    try (destruct su; simpl; try (intros; reflexivity); try (intros; discriminate));
    try (destruct sv; simpl; try (intros; reflexivity); try (intros; discriminate));
    try (destruct sw; simpl; try (intros; reflexivity); try (intros; discriminate)).
  all: intros H1 H2; compare_cases; simpl in *;
    try reflexivity; try discriminate; try lia.
Qed.

(** The order facts, on numbers. *)

Lemma leb_refl (u : float) : is_nan u = false -> (u <=? u) = true.
Proof.
  intros H. rewrite FloatAxioms.leb_spec. apply SFleb_refl, is_nan_inv, H.
Qed.

Lemma leb_total (u v : float) :
  is_nan u = false -> is_nan v = false -> (u <? v) = false -> (v <=? u) = true.
Proof.
  intros Hu Hv. rewrite FloatAxioms.ltb_spec, FloatAxioms.leb_spec.
  apply SFleb_total; apply is_nan_inv; assumption.
Qed.

Lemma ltb_leb (u v : float) : (u <? v) = true -> (u <=? v) = true.
Proof.
  rewrite FloatAxioms.ltb_spec, FloatAxioms.leb_spec. apply SFltb_leb.
Qed.

Lemma leb_trans (u v w : float) :
  (u <=? v) = true -> (v <=? w) = true -> (u <=? w) = true.
Proof.
  rewrite !FloatAxioms.leb_spec. apply SFleb_trans.
Qed.

End OrderFacts.

(** ** Facts about rounding

    What [binary_round_aux], the rounding of the IEEE specification, does
    to a product and to a quotient of two normal numbers. *)

Module RoundFacts.
Local Open Scope Z_scope.

(** Number of binary digits. *)
Lemma digits2_pos_bounds (p : positive) :
  2 ^ (Zpos (digits2_pos p) - 1) <= Zpos p < 2 ^ Zpos (digits2_pos p).
Proof.
  induction p as [p IH|p IH|]; cbn [digits2_pos].
  - rewrite Pos2Z.inj_succ.
    replace (Z.succ (Zpos (digits2_pos p)) - 1) with (Z.succ (Zpos (digits2_pos p) - 1)) by lia.
    rewrite !Z.pow_succ_r by lia. lia.
  - rewrite Pos2Z.inj_succ.
    replace (Z.succ (Zpos (digits2_pos p)) - 1) with (Z.succ (Zpos (digits2_pos p) - 1)) by lia.
    rewrite !Z.pow_succ_r by lia. lia.
  - simpl. lia.
Qed.

Lemma Zdigits2_unique (z k : Z) :
  0 < k -> 2 ^ (k - 1) <= z < 2 ^ k -> Zdigits2 z = k.
Proof.
  intros Hk [Hlo Hhi].
  assert (Hz : 0 < z) by (pose proof (Z.pow_pos_nonneg 2 (k - 1)); lia).
  destruct z as [|p|p]; try lia. cbn [Zdigits2].
  pose proof (digits2_pos_bounds p) as [Hl Hh].
  set (d := Zpos (digits2_pos p)) in *.
  assert (Hd : 0 < d) by (unfold d; lia).
  destruct (Z.lt_trichotomy d k) as [Hlt|[Heq|Hgt]]; [|exact Heq|].
  - assert (2 ^ d <= 2 ^ (k - 1)) by (apply Z.pow_le_mono_r; lia). lia.
  - assert (2 ^ k <= 2 ^ (d - 1)) by (apply Z.pow_le_mono_r; lia). lia.
Qed.

(** [iter_pos] is iteration. *)
Lemma iter_pos_nat {A : Type} (f : A -> A) (p : positive) :
  forall x, @SpecFloat.iter_pos A f p x = Nat.iter (Pos.to_nat p) f x.
Proof.
  induction p as [p IH|p IH|]; intros x; cbn [SpecFloat.iter_pos].
  - rewrite !IH, Pos2Nat.inj_xI, Nat.iter_succ_r.
    replace (2 * Pos.to_nat p)%nat with (Pos.to_nat p + Pos.to_nat p)%nat by lia.
    rewrite Nat.iter_add. reflexivity.
  - rewrite !IH, Pos2Nat.inj_xO.
    replace (2 * Pos.to_nat p)%nat with (Pos.to_nat p + Pos.to_nat p)%nat by lia.
    rewrite Nat.iter_add. reflexivity.
  - reflexivity.
Qed.

Lemma located_start (z : Z) :
  0 <= z -> located z 0 {| shr_m := z; shr_r := false; shr_s := false |}.
Proof.
  intros Hz. unfold located. cbn [shr_m loc_of_shr_record Z.of_nat].
  rewrite Z.pow_0_r. replace (z - 1 * z) with 0 by lia.
  split; [exact Hz|]. split; [lia|reflexivity].
Qed.

Lemma located_step (z : Z) (n : nat) (mrs : shr_record) :
  located z n mrs -> located z (S n) (shr_1 mrs).
Proof.
  unfold located. destruct mrs as [q r s]. cbn [shr_m].
  rewrite Nat2Z.inj_succ, Z.pow_succ_r by lia.
  set (w := 2 ^ Z.of_nat n). assert (Hw : 0 < w) by (apply Z.pow_pos_nonneg; lia).
  intros (Hq & Hrem & Hloc).
  destruct q as [|[p|p|]|p]; try lia; cbn [shr_1 shr_m loc_of_shr_record];
    (split; [lia|]); (split; [lia|]);
    destruct r, s; cbn [orb loc_of_shr_record] in *;
    repeat match goal with
    | H : context [if ?b =? 0 then _ else _] |- _ =>
        destruct (Z.eqb_spec b 0)
    | |- context [if ?b =? 0 then _ else _] =>
        destruct (Z.eqb_spec b 0)
    | H : context [?a ?= ?b] |- _ => destruct (Z.compare_spec a b)
    | |- context [?a ?= ?b] => destruct (Z.compare_spec a b)
    end; try discriminate; try reflexivity; try lia.
Qed.

Lemma located_iter (z : Z) (n : nat) :
  0 <= z ->
  located z n (Nat.iter n shr_1 {| shr_m := z; shr_r := false; shr_s := false |}).
Proof.
  intros Hz. induction n as [|n IH].
  - apply located_start, Hz.
  - cbn [Nat.iter]. apply located_step, IH.
Qed.

(** Rounding a located quotient to nearest, ties to even, stays within
    half a unit of [z / 2^n]. *)
Lemma located_round (z : Z) (n : nat) (mrs : shr_record) :
  located z n mrs ->
  let N := round_nearest_even (shr_m mrs) (loc_of_shr_record mrs) in
  - 2 ^ Z.of_nat n <= 2 * (2 ^ Z.of_nat n * N - z) <= 2 ^ Z.of_nat n.
Proof.
  unfold located. intros (Hq & Hrem & Hloc). cbv zeta. rewrite Hloc.
  set (w := 2 ^ Z.of_nat n) in *. set (q := shr_m mrs) in *.
  destruct (Z.eqb_spec (z - w * q) 0) as [E|E]; cbn [round_nearest_even].
  - lia.
  - destruct (Z.compare_spec (2 * (z - w * q)) w); cbn [round_nearest_even];
      try destruct (Z.even q); lia.
Qed.

(** Rounding moves a quotient up by one at most. *)
Lemma round_step (q : Z) (l : location) :
  round_nearest_even q l = q \/ round_nearest_even q l = q + 1.
Proof.
  destruct l as [|[ | | ]]; cbn [round_nearest_even]; try destruct (Z.even q); auto.
Qed.


Lemma fexp_normal (e : Z) : -1074 <= e -> fexp prec emax (53 + e) = e.
Proof. unfold fexp, SpecFloat.emin, prec, emax. lia. Qed.

Lemma loc_of_record_of_loc (m : Z) (l : location) :
  loc_of_shr_record (shr_record_of_loc m l) = l.
Proof. destruct l as [|[ | | ]]; reflexivity. Qed.

Lemma shr_m_record_of_loc (m : Z) (l : location) :
  shr_m (shr_record_of_loc m l) = m.
Proof. destruct l as [|[ | | ]]; reflexivity. Qed.

(** A mantissa of 53 digits needs no further shift. *)
Lemma shr_fexp_53 (N e : Z) (l : location) :
  2 ^ 52 <= N < 2 ^ 53 -> -1074 <= e ->
  shr_fexp prec emax N e l = (shr_record_of_loc N l, e).
Proof.
  intros HN He. unfold shr_fexp.
  rewrite (Zdigits2_unique N 53) by lia.
  rewrite fexp_normal by exact He. rewrite Z.sub_diag. reflexivity.
Qed.

(** The second, final normalisation of [binary_round_aux] on a mantissa
    that fits. *)
Lemma round_aux_finish (N e : Z) :
  2 ^ 52 <= N < 2 ^ 53 -> -1074 <= e ->
  (let '(mrs, e') := shr_fexp prec emax N e loc_Exact in
   match shr_m mrs with
   | 0 => S754_zero false
   | Zpos m => if e' <=? emax - prec then S754_finite false m e' else S754_infinity false
   | Zneg _ => S754_nan
   end)
  = if e <=? 971 then S754_finite false (Z.to_pos N) e else S754_infinity false.
Proof.
  intros HN He. rewrite shr_fexp_53 by assumption. cbn [shr_record_of_loc shr_m].
  assert (0 < N) by lia. destruct N as [|p|p]; try lia. reflexivity.
Qed.

(** Rounding a quotient of 53 digits with any location. *)
Lemma round_aux_53 (q e : Z) (l : location) :
  2 ^ 52 <= q -> q + 1 < 2 ^ 53 -> -1074 <= e ->
  exists N, (N = q \/ N = q + 1) /\
    binary_round_aux prec emax false q e l
    = if e <=? 971 then S754_finite false (Z.to_pos N) e else S754_infinity false.
Proof.
  intros Hlo Hhi He. unfold binary_round_aux.
  rewrite shr_fexp_53 by lia.
  rewrite loc_of_record_of_loc, shr_m_record_of_loc.
  exists (round_nearest_even q l). split; [apply round_step|].
  apply round_aux_finish; [|exact He].
  destruct (round_step q l) as [E|E]; rewrite E; lia.
Qed.

(** Rounding a quotient of 54 digits with any location. *)
Lemma round_aux_54 (q e : Z) (l : location) :
  2 ^ 53 <= q -> q / 2 + 1 < 2 ^ 53 -> -1074 <= e + 1 ->
  exists N, (N = q / 2 \/ N = q / 2 + 1) /\
    binary_round_aux prec emax false q e l
    = if e + 1 <=? 971 then S754_finite false (Z.to_pos N) (e + 1)
      else S754_infinity false.
Proof.
  intros Hlo Hhi He. unfold binary_round_aux, shr_fexp at 1.
  assert (Hq : q < 2 ^ 54) by (pose proof (Z.div_mod q 2); pose proof (Z.mod_pos_bound q 2); lia).
  rewrite (Zdigits2_unique q 54) by lia.
  replace (54 + e) with (53 + (e + 1)) by lia.
  rewrite fexp_normal by exact He.
  replace (e + 1 - e) with 1 by lia. cbn [shr SpecFloat.iter_pos].
  assert (Hm : shr_m (shr_1 (shr_record_of_loc q l)) = q / 2).
  { assert (0 < q) by lia. destruct q as [|[p|p|]|p]; try lia;
      destruct l as [|[ | | ]]; cbn [shr_record_of_loc shr_1 shr_m].
    all: try (rewrite Pos2Z.inj_xI, Z.mul_comm, Z.div_add_l by lia; reflexivity).
    all: try (rewrite Pos2Z.inj_xO, Z.mul_comm, Z.div_mul by lia; reflexivity).
    all: reflexivity. }
  set (mrs := shr_1 (shr_record_of_loc q l)) in *.
  exists (round_nearest_even (shr_m mrs) (loc_of_shr_record mrs)). split.
  - rewrite <- Hm. apply round_step.
  - apply round_aux_finish; [|exact He].
    destruct (round_step (shr_m mrs) (loc_of_shr_record mrs)) as [E|E];
      rewrite E, Hm.
    + pose proof (Z.div_mod q 2); pose proof (Z.mod_pos_bound q 2); lia.
    + pose proof (Z.div_mod q 2); pose proof (Z.mod_pos_bound q 2); lia.
Qed.


(** Rounding an exact product of [53 + p] digits: the mantissa is the
    nearest to [z / 2^p]; when it reaches [2^53] the exponent takes the
    carry. *)
Lemma round_aux_exact (z e : Z) (p : positive) :
  2 ^ (52 + Zpos p) <= z < 2 ^ (53 + Zpos p) -> -1074 <= e + Zpos p ->
  exists N,
    - 2 ^ Zpos p <= 2 * (2 ^ Zpos p * N - z) <= 2 ^ Zpos p /\
    2 ^ 52 <= N <= 2 ^ 53 /\
    binary_round_aux prec emax false z e loc_Exact
    = if N <? 2 ^ 53
      then (if e + Zpos p <=? 971
            then S754_finite false (Z.to_pos N) (e + Zpos p)
            else S754_infinity false)
      else (if e + Zpos p + 1 <=? 971
            then S754_finite false (Z.to_pos (2 ^ 52)) (e + Zpos p + 1)
            else S754_infinity false).
Proof.
  intros Hz He.
  assert (Hw : 0 < 2 ^ Zpos p) by (apply Z.pow_pos_nonneg; lia).
  rewrite !Z.pow_add_r in Hz by lia.
  unfold binary_round_aux, shr_fexp at 1.
  rewrite (Zdigits2_unique z (53 + Zpos p))
    by (rewrite ?Z.pow_add_r by lia;
        replace (53 + Zpos p - 1) with (52 + Zpos p) by lia;
        rewrite ?Z.pow_add_r by lia; lia).
  replace (53 + Zpos p + e) with (53 + (e + Zpos p)) by lia.
  rewrite fexp_normal by exact He.
  replace (e + Zpos p - e) with (Zpos p) by lia.
  cbn [shr shr_record_of_loc]. rewrite iter_pos_nat.
  pose proof (located_iter z (Pos.to_nat p) ltac:(lia)) as Hloc.
  set (mrs := Nat.iter (Pos.to_nat p) shr_1 _) in *.
  pose proof (located_round z (Pos.to_nat p) mrs Hloc) as Hround.
  cbv zeta in Hround. rewrite positive_nat_Z in Hround.
  set (N := round_nearest_even (shr_m mrs) (loc_of_shr_record mrs)) in *.
  set (w := 2 ^ Zpos p) in *.
  assert (HN : 2 ^ 52 <= N <= 2 ^ 53) by nia.
  exists N. split; [exact Hround|]. split; [exact HN|].
  destruct (Z.ltb_spec N (2 ^ 53)) as [Hlt|Hge].
  - apply round_aux_finish; lia.
  - assert (EN : N = 2 ^ 53) by lia. rewrite EN. unfold shr_fexp.
    change (Zdigits2 (2 ^ 53)) with 54.
    replace (54 + (e + Zpos p)) with (53 + (e + Zpos p + 1)) by lia.
    rewrite fexp_normal by lia.
    replace (e + Zpos p + 1 - (e + Zpos p)) with 1 by lia.
    reflexivity.
Qed.


(** *** Six times a normal number, divided by that number *)

Lemma mul_six (m : positive) (e : Z) :
  2 ^ 52 <= Zpos m < 2 ^ 53 -> -1074 <= e ->
  SF64mul (S754_finite false six_mantissa (-50)) (S754_finite false m e)
  = S754_infinity false \/
  exists mz ez,
    SF64mul (S754_finite false six_mantissa (-50)) (S754_finite false m e)
    = S754_finite false mz ez /\
    2 ^ 52 <= Zpos mz < 2 ^ 53 /\
    ((ez = e + 2 /\ -1 <= 2 * Zpos mz - 3 * Zpos m <= 1) \/
     (ez = e + 3 /\ -2 <= 4 * Zpos mz - 3 * Zpos m <= 2)).
Proof.
  intros Hm He. unfold SF64mul, SFmul. cbn [xorb].
  assert (Ez : Zpos (six_mantissa * m) = 3 * 2 ^ 51 * Zpos m)
    by (rewrite Pos2Z.inj_mul; reflexivity).
  rewrite Ez. set (z := 3 * 2 ^ 51 * Zpos m) in *.
  destruct (Z.lt_ge_cases (3 * Zpos m) (2 ^ 54)) as [Hsmall|Hbig].
  - destruct (round_aux_exact z (-50 + e) 52) as (N & Hr & HN & E);
      [unfold z; lia | lia |].
    rewrite E. change (2 ^ Zpos 52) with (2 ^ 52) in Hr.
    replace (-50 + e + 52) with (e + 2) in * by lia.
    replace (e + 2 + 1) with (e + 3) in * by lia.
    destruct (Z.ltb_spec N (2 ^ 53)) as [Hlt|Hge].
    + destruct (Z.leb_spec (e + 2) 971); [|left; reflexivity].
      right. exists (Z.to_pos N), (e + 2). split; [reflexivity|].
      rewrite Z2Pos.id by lia. split; [lia|]. left. unfold z in Hr. lia.
    + destruct (Z.leb_spec (e + 3) 971); [|left; reflexivity].
      right. exists (Z.to_pos (2 ^ 52)), (e + 3). split; [reflexivity|].
      rewrite Z2Pos.id by lia. split; [lia|]. right. unfold z in Hr. lia.
  - destruct (round_aux_exact z (-50 + e) 53) as (N & Hr & HN & E);
      [unfold z; lia | lia |].
    rewrite E. change (2 ^ Zpos 53) with (2 ^ 53) in Hr.
    replace (-50 + e + 53) with (e + 3) in * by lia.
    assert (Hlt : N < 2 ^ 53) by (unfold z in Hr; lia).
    destruct (Z.ltb_spec N (2 ^ 53)) as [_|Hge]; [|lia].
    destruct (Z.leb_spec (e + 3) 971); [|left; reflexivity].
    right. exists (Z.to_pos N), (e + 3). split; [reflexivity|].
    rewrite Z2Pos.id by lia. split; [lia|]. right. unfold z in Hr. lia.
Qed.

Lemma div_back (mz m : positive) (ez e : Z) :
  2 ^ 52 <= Zpos m < 2 ^ 53 -> 2 ^ 52 <= Zpos mz < 2 ^ 53 ->
  (ez = e + 2 /\ -1 <= 2 * Zpos mz - 3 * Zpos m <= 1) \/
  (ez = e + 3 /\ -2 <= 4 * Zpos mz - 3 * Zpos m <= 2) ->
  exists N,
    3 * 2 ^ 51 - 1 <= N <= 3 * 2 ^ 51 + 1 /\
    SF64div (S754_finite false mz ez) (S754_finite false m e)
    = S754_finite false (Z.to_pos N) (-50).
Proof.
  intros Hm Hmz Hcase. unfold SF64div, SFdiv, SFdiv_core_binary. cbn [xorb].
  rewrite (Zdigits2_unique (Zpos mz) 53), (Zdigits2_unique (Zpos m) 53) by lia.
  pose proof (Z_div_mod (Z.shiftl (Zpos mz) 53) (Zpos m) ltac:(lia)) as Hdiv.
  rewrite Z.shiftl_mul_pow2 in Hdiv by lia.
  destruct Hcase as [[Eez Herr]|[Eez Herr]]; subst ez.
  - replace (53 + (e + 2) - (53 + e)) with 2 by lia.
    replace (e + 2 - e) with 2 by lia.
    change (Z.min (fexp prec emax 2) 2) with (-51).
    change (2 - -51) with 53. cbv iota beta.
    rewrite Z.shiftl_mul_pow2 by lia.
    destruct (Z.div_eucl (Zpos mz * 2 ^ 53) (Zpos m)) as [q r].
    destruct Hdiv as [Hq Hr].
    assert (Hqb : 3 * 2 ^ 52 - 1 <= q <= 3 * 2 ^ 52 + 1) by nia.
    destruct (round_aux_54 q (-51) (new_location (Zpos m) r)) as (N & HN & E).
    + lia.
    + pose proof (Z.div_mod q 2); pose proof (Z.mod_pos_bound q 2); lia.
    + lia.
    + exists N. split.
      * pose proof (Z.div_mod q 2); pose proof (Z.mod_pos_bound q 2); lia.
      * rewrite E. reflexivity.
  - replace (53 + (e + 3) - (53 + e)) with 3 by lia.
    replace (e + 3 - e) with 3 by lia.
    change (Z.min (fexp prec emax 3) 3) with (-50).
    change (3 - -50) with 53. cbv iota beta.
    rewrite Z.shiftl_mul_pow2 by lia.
    destruct (Z.div_eucl (Zpos mz * 2 ^ 53) (Zpos m)) as [q r].
    destruct Hdiv as [Hq Hr].
    assert (Hqb : 3 * 2 ^ 51 - 1 <= q <= 3 * 2 ^ 51) by nia.
    destruct (round_aux_53 q (-50) (new_location (Zpos m) r)) as (N & HN & E).
    + lia.
    + lia.
    + lia.
    + exists N. split; [lia|]. rewrite E. reflexivity.
Qed.

End RoundFacts.

Module SignFacts.
Import RoundFacts.
Local Open Scope Z_scope.

Lemma signed_exists (u : spec_float) : exists s, signed s u.
Proof. destruct u as [s| s| |s m e]; try (exists s; reflexivity). exists false. exact I. Qed.

Lemma binary_round_aux_signed (s : bool) (m e : Z) (l : location) :
  signed s (binary_round_aux prec emax s m e l).
Proof.
  unfold binary_round_aux.
  destruct (shr_fexp prec emax m e l) as [mrs' e'].
  destruct (shr_fexp prec emax _ e' loc_Exact) as [mrs'' e''].
  destruct (shr_m mrs''); simpl; try reflexivity.
  destruct (e'' <=? 971); reflexivity.
Qed.

Lemma SFmul_signed (s t : bool) (u v : spec_float) :
  signed s u -> signed t v -> signed (xorb s t) (SF64mul u v).
Proof.
  destruct u as [su| su| |su mu eu], v as [sv| sv| |sv mv ev]; simpl;
    intros Hu Hv; subst; try reflexivity; try exact I.
  apply binary_round_aux_signed.
Qed.

Lemma SFdiv_signed (s t : bool) (u v : spec_float) :
  signed s u -> signed t v -> signed (xorb s t) (SF64div u v).
Proof.
  destruct u as [su| su| |su mu eu], v as [sv| sv| |sv mv ev]; simpl;
    intros Hu Hv; subst; try reflexivity; try exact I.
  unfold SF64div, SFdiv.
  destruct (SFdiv_core_binary prec emax (Zpos mu) eu (Zpos mv) ev) as [[mz ez] lz].
  apply binary_round_aux_signed.
Qed.

(** Shifting a positive mantissa into the format leaves it positive. *)
Lemma shr_fexp_positive (z e : Z) :
  0 < z -> -1074 <= e ->
  0 < shr_m (fst (shr_fexp prec emax z e loc_Exact)) /\
  -1074 <= snd (shr_fexp prec emax z e loc_Exact).
Proof.
  intros Hz He. unfold shr_fexp, shr. cbn [shr_record_of_loc].
  destruct (fexp prec emax (Zdigits2 z + e) - e) as [|p|p] eqn:Es;
    cbn [fst snd shr_m]; try (split; assumption).
  rewrite iter_pos_nat.
  pose proof (located_iter z (Pos.to_nat p) ltac:(lia)) as Hloc.
  set (mrs := Nat.iter (Pos.to_nat p) shr_1 _) in *.
  destruct Hloc as (Hq & Hrem & _). rewrite positive_nat_Z in Hrem.
  destruct z as [|pz|pz]; try lia. cbn [Zdigits2] in Es.
  pose proof (digits2_pos_bounds pz) as [Hlo _].
  unfold fexp, SpecFloat.emin, prec, emax in Es.
  assert (Ed : Zpos (digits2_pos pz) = 53 + Zpos p) by lia.
  rewrite Ed in Hlo. replace (53 + Zpos p - 1) with (52 + Zpos p) in Hlo by lia.
  rewrite Z.pow_add_r in Hlo by lia.
  assert (Hw : 0 < 2 ^ Zpos p) by (apply Z.pow_pos_nonneg; lia).
  split; [nia | lia].
Qed.

(** Rounding a positive mantissa with an exponent of the format never
    gives a zero. *)
Lemma binary_round_aux_nonzero (s : bool) (z e : Z) :
  0 < z -> -1074 <= e ->
  forall s', binary_round_aux prec emax s z e loc_Exact <> S754_zero s'.
Proof.
  intros Hz He s'. unfold binary_round_aux.
  pose proof (shr_fexp_positive z e Hz He) as [Hpos He'].
  destruct (shr_fexp prec emax z e loc_Exact) as [mrs' e'].
  cbn [fst snd] in Hpos, He'.
  assert (HN : 0 < round_nearest_even (shr_m mrs') (loc_of_shr_record mrs'))
    by (destruct (round_step (shr_m mrs') (loc_of_shr_record mrs')) as [E|E];
        rewrite E; lia).
  pose proof (shr_fexp_positive _ e' HN He') as [Hpos' _].
  destruct (shr_fexp prec emax _ e' loc_Exact) as [mrs'' e''].
  cbn [fst] in Hpos'.
  destruct (shr_m mrs''); try lia.
  destruct (e'' <=? emax - prec); discriminate.
Qed.

Lemma binary_round_nonzero (s : bool) (m : positive) (e : Z) :
  -1074 <= e -> forall s', binary_round prec emax s m e <> S754_zero s'.
Proof.
  intros He s'. unfold binary_round, shl_align.
  assert (Hf : -1074 <= fexp prec emax (Zpos (digits2_pos m) + e))
    by (unfold fexp, SpecFloat.emin, prec, emax; lia).
  destruct (fexp prec emax (Zpos (digits2_pos m) + e) - e);
    apply binary_round_aux_nonzero; lia.
Qed.

Lemma valid_exponent (s : bool) (m : positive) (e : Z) :
  valid_binary (S754_finite s m e) = true -> -1074 <= e.
Proof.
  cbn [valid_binary]. unfold bounded, canonical_mantissa. intros H.
  apply andb_true_iff in H. destruct H as [H _]. apply Z.eqb_eq in H.
  unfold fexp, SpecFloat.emin, prec, emax in H. lia.
Qed.

(** The difference of two numbers of the same sign is not the negative zero. *)
Lemma SFsub_not_neg_zero (s : bool) (u v : spec_float) :
  valid_binary u = true -> valid_binary v = true ->
  signed s u -> signed s v -> SF64sub u v <> S754_zero true.
Proof.
  intros Vu Vv Hu Hv.
  destruct u as [su| su| |su mu eu], v as [sv| sv| |sv mv ev];
    cbn [signed] in Hu, Hv; subst; unfold SF64sub, SFsub;
    try discriminate; try (destruct s; discriminate).
  apply valid_exponent in Vu. apply valid_exponent in Vv.
  set (z := cond_Zopp s _ - cond_Zopp s _).
  destruct z as [|p|p]; cbn [binary_normalize]; try discriminate.
  - apply binary_round_nonzero. lia.
  - apply binary_round_nonzero. lia.
Qed.

End SignFacts.

Section SixRatio.
Import RoundFacts.

Lemma classify_normal_inv (y : float) :
  classify y = PNormal ->
  exists m e, Prim2SF y = S754_finite false m e /\
              (2 ^ 52 <= Zpos m < 2 ^ 53)%Z /\ (-1074 <= e)%Z.
Proof.
  intros Hc. rewrite classify_spec in Hc.
  pose proof (Prim2SF_valid y) as Hv.
  destruct (Prim2SF y) as [s| s| |s m e]; cbn [SF64classify SFclassify] in Hc;
    try (destruct s; discriminate Hc); try discriminate Hc.
  destruct s.
  - destruct (Zpos (digits2_pos m) =? prec)%Z; discriminate Hc.
  - destruct (Z.eqb_spec (Zpos (digits2_pos m)) prec) as [Ed|]; [|discriminate Hc].
    exists m, e. split; [reflexivity|].
    pose proof (digits2_pos_bounds m) as Hb. rewrite Ed in Hb.
    split; [exact Hb|].
    cbn [valid_binary] in Hv. unfold bounded, canonical_mantissa in Hv.
    apply andb_true_iff in Hv. destruct Hv as [Hcan _].
    apply Z.eqb_eq in Hcan. rewrite Ed in Hcan.
    unfold fexp, SpecFloat.emin, prec, emax in Hcan. lia.
Qed.

(** Six times a normal number, divided by that number, is 6 or one of
    its two neighbours. *)
Lemma six_ratio (y : float) :
  classify y = PNormal -> is_finite (6 * y) = true ->
  6 * y / y = next_down 6 \/ 6 * y / y = 6 \/ 6 * y / y = next_up 6.
Proof.
  intros Hc Hfin.
  destruct (classify_normal_inv y Hc) as (m & e & Ey & Hm & He).
  assert (Emul : Prim2SF (6 * y)
                 = SF64mul (S754_finite false six_mantissa (-50)) (S754_finite false m e))
    by (rewrite mul_spec, Ey; reflexivity).
  destruct (mul_six m e Hm He) as [Einf|(mz & ez & Efin & Hmz & Hcase)].
  - exfalso. rewrite Einf in Emul.
    unfold is_finite, is_nan, is_infinity in Hfin.
    rewrite !FloatAxioms.eqb_spec, abs_spec, Emul in Hfin. discriminate Hfin.
  - rewrite Efin in Emul.
    destruct (div_back mz m ez e Hm Hmz Hcase) as (N & HN & Ediv).
    assert (Er : Prim2SF (6 * y / y) = S754_finite false (Z.to_pos N) (-50))
      by (rewrite div_spec, Emul, Ey; exact Ediv).
    assert (Ecases : (N = 6755399441055743 \/ N = 6755399441055744
                      \/ N = 6755399441055745)%Z) by lia.
    destruct Ecases as [EN|[EN|EN]]; subst N;
      [left | right; left | right; right];
      apply Prim2SF_inj; rewrite Er; reflexivity.
Qed.

End SixRatio.

Section SignedArithmetic.
Import SignFacts FloatFacts.

Lemma positive_nonneg (u : float) : (0 <? u) = true -> nonneg u.
Proof.
  unfold nonneg. rewrite FloatAxioms.ltb_spec.
  change (Prim2SF 0) with (S754_zero false).
  destruct (Prim2SF u) as [s| s| |s m e]; simpl; try discriminate;
    destruct s; try discriminate; reflexivity.
Qed.

Lemma mul_nonneg (u v : float) : nonneg u -> nonneg v -> nonneg (u * v).
Proof.
  unfold nonneg. intros Hu Hv. rewrite mul_spec.
  apply (SFmul_signed false false); assumption.
Qed.

Lemma div_nonneg (u v : float) : nonneg u -> nonneg v -> nonneg (u / v).
Proof.
  unfold nonneg. intros Hu Hv. rewrite div_spec.
  apply (SFdiv_signed false false); assumption.
Qed.

(** With coefficients that are not negative, [a x - b x^3] is never the
    negative zero: both terms have the sign of [x]. *)
Lemma cubic_not_neg_zero (a b x : float) :
  nonneg a -> nonneg b -> Prim2SF (a * x - b * x * x * x) <> S754_zero true.
Proof.
  unfold nonneg. intros Ha Hb.
  destruct (signed_exists (Prim2SF x)) as [s Hs].
  rewrite sub_spec. apply (SFsub_not_neg_zero s); try apply Prim2SF_valid.
  - rewrite mul_spec. apply (SFmul_signed false s); assumption.
  - assert (H1 : signed s (Prim2SF (b * x)))
      by (rewrite mul_spec; apply (SFmul_signed false s); assumption).
    assert (H2 : signed false (Prim2SF (b * x * x))).
    { rewrite mul_spec. rewrite <- (xorb_nilpotent s).
      apply SFmul_signed; assumption. }
    rewrite mul_spec. apply (SFmul_signed false s); assumption.
Qed.

(** Adding a zero of either sign to a number that is not the negative
    zero leaves it unchanged. *)
Lemma add_zero_neutral (v z : float) :
  Prim2SF v <> S754_zero true -> is_zero z = true -> v + z = v.
Proof.
  intros Hv Hz. destruct (is_zero_inv z Hz) as [sz Ez].
  apply Prim2SF_inj. rewrite add_spec, Ez.
  destruct (Prim2SF v) as [s| s| |s m e]; try reflexivity.
  destruct s; [congruence|]. destruct sz; reflexivity.
Qed.

End SignedArithmetic.

(** ** The integration loop *)

Section LoopFacts.
Import JsNum.

Variable M : JsMath.
Variable noise : nat -> float.

Lemma run_loop_S (p : Params) (n : nat) :
  run_loop M noise p (S n) = loop_body M noise p n (run_loop M noise p n).
Proof.
  unfold run_loop. rewrite seq_S, fold_left_app. reflexivity.
Qed.

(** One variate is drawn per iteration. *)
Lemma run_loop_draws (p : Params) (n : nat) :
  Loop.draws (run_loop M noise p n) = n.
Proof.
  induction n as [|n IH].
  - reflexivity.
  - rewrite run_loop_S. simpl. rewrite IH. reflexivity.
Qed.

(** A time is stored with every position: the two arrays grow together. *)
Lemma run_loop_lengths (p : Params) (n : nat) :
  length (Loop.times (run_loop M noise p n))
  = length (Loop.trajectory (run_loop M noise p n)).
Proof.
  induction n as [|n IH].
  - reflexivity.
  - rewrite run_loop_S. unfold loop_body. cbn [Loop.times Loop.trajectory].
    destruct (rem _ _ =? 0); [|exact IH].
    rewrite !length_app, IH. reflexivity.
Qed.

Lemma loop_body_x (p : Params) (i : nat) (st : Loop.state) :
  Loop.x (loop_body M noise p i st)
  = spec_step M p (Loop.x st) (noise (Loop.draws st)).
Proof. reflexivity. Qed.

Lemma run_loop_x (p : Params) (n : nat) :
  Loop.x (run_loop M noise p n) = spec_position M noise p n.
Proof.
  induction n as [|n IH].
  - reflexivity.
  - rewrite run_loop_S, loop_body_x, run_loop_draws, IH. reflexivity.
Qed.

Lemma trip_count_floor (q : float) (z : Z) :
  floorZ q = Some z -> (z <= 2 ^ 53)%Z -> trip_count q = Some (Z.to_nat z).
Proof.
  intros Hq Hz. unfold trip_count. rewrite Hq.
  destruct (Z.leb_spec z (2 ^ 53)) as [_|Hgt]; [reflexivity | lia].
Qed.

End LoopFacts.

(** C2. The integrator starts at x = -x_0 and, when the step count
    floor(t_end / dt) is a positive integer z, performs z iterations, drawing
    one variate R in each and replacing x by
    x + (dt / gamma) F_det + sqrt(2 k_B_T dt / gamma) R, with gamma = 1e-7,
    F_det = a x - b x^3 + F_coupling, a = 24 k_B_T / x_0^2 and b = a / x_0^2. *)
Theorem C2_integrator_recurrence (M : JsMath) (noise : nat -> float)
  (p : Params) (z : Z) :
  JsNum.floorZ (t_end p / dt p) = Some z -> (0 < z <= 2 ^ 53)%Z ->
  trip_count (t_end p / dt p) = Some (Z.to_nat z) /\
  Loop.x loop_init = - x_0 /\
  (forall i st,
      Loop.x (loop_body M noise p i st)
      = spec_step M p (Loop.x st) (noise (Loop.draws st))) /\
  (forall i, (i <= Z.to_nat z)%nat ->
      Loop.x (run_loop M noise p i) = spec_position M noise p i /\
      Loop.draws (run_loop M noise p i) = i).
Proof.
  intros Hq [Hpos Hle]. repeat split.
  - apply trip_count_floor; assumption.
  - apply run_loop_x.
  - apply run_loop_draws.
Qed.

(** ** The coupling term *)

Section CouplingFacts.
Import JsNum FloatFacts.

Variable M : JsMath.

(** ECMAScript fixes [Math.sin(+0)] to [+0]. *)
Hypothesis sin_zero : Math_sin M 0 = 0.

Lemma Phi_S_baseline : Phi_S M = Phi_baseline.
Proof.
  unfold Phi_S. change (2 * Math_PI * 100 * 0) with 0.
  rewrite sin_zero. reflexivity.
Qed.

Lemma F_coupling_mul_zero (p : Params) : F_coupling M p = F_mag p * 0.
Proof.
  unfold F_coupling. rewrite Phi_S_baseline. reflexivity.
Qed.

Lemma F_coupling_is_zero (p : Params) :
  is_finite (F_mag p) = true -> is_zero (F_coupling M p) = true.
Proof.
  intros Hfin. rewrite F_coupling_mul_zero.
  apply mul_zero_r; [exact Hfin | reflexivity].
Qed.

(** For a positive temperature the coefficients [a] and [b] are not
    negative. *)
Lemma coefficients_nonneg (p : Params) :
  (0 <? T p) = true -> nonneg (a p) /\ nonneg (b p).
Proof.
  intros HT.
  assert (Ha : nonneg (a p)).
  { unfold a, k_B_T. apply div_nonneg; [|reflexivity].
    apply mul_nonneg; [reflexivity|].
    apply mul_nonneg; [reflexivity | apply positive_nonneg; exact HT]. }
  split; [exact Ha|]. unfold b. apply div_nonneg; [exact Ha | reflexivity].
Qed.

(** For a positive temperature and a finite amplitude the coupling term
    leaves the force unchanged. *)
Lemma F_det_uncoupled (p : Params) (x : float) :
  (0 <? T p) = true -> is_finite (F_mag p) = true ->
  F_det M p x = a p * x - b p * x * x * x.
Proof.
  intros HT Hfin. unfold F_det.
  destruct (coefficients_nonneg p HT) as [Ha Hb].
  apply add_zero_neutral.
  - apply cubic_not_neg_zero; assumption.
  - apply F_coupling_is_zero. exact Hfin.
Qed.

(** An amplitude that is NaN or infinite makes the coupling term NaN, and
    with it the force at every position. *)
Lemma F_coupling_nan (p : Params) :
  is_finite (F_mag p) = false -> Prim2SF (F_coupling M p) = S754_nan.
Proof.
  rewrite F_coupling_mul_zero, mul_spec.
  change (Prim2SF 0) with (S754_zero false).
  unfold is_finite, is_nan, is_infinity.
  rewrite !FloatAxioms.eqb_spec, abs_spec.
  change (Prim2SF infinity) with (S754_infinity false).
  destruct (Prim2SF (F_mag p)) as [s| s| |s m e]; simpl; intros H;
    try reflexivity; try discriminate H.
  exfalso. pose proof (OrderFacts.SFleb_refl (S754_finite s m e) ltac:(discriminate)) as Hl.
  unfold SFleb in Hl. unfold SFeqb in H.
  destruct (SFcompare (S754_finite s m e) (S754_finite s m e)) as [[ | | ]|] eqn:E;
    try discriminate Hl; try discriminate H.
  pose proof (SFcompare_antisym (S754_finite s m e) (S754_finite s m e)) as Ha.
  rewrite E in Ha. discriminate Ha.
Qed.

Lemma F_det_nan (p : Params) (x : float) :
  is_finite (F_mag p) = false -> is_nan (F_det M p x) = true.
Proof.
  intros H. unfold F_det, is_nan.
  rewrite FloatAxioms.eqb_spec, add_spec, (F_coupling_nan p H).
  destruct (Prim2SF (a p * x - b p * x * x * x)); reflexivity.
Qed.

End CouplingFacts.

(** C3 (as the source has it). Phi_S is evaluated once, at t = 0, where it
    equals Phi_baseline, so F_coupling is the run-wide constant
    F_mag * 0.  For a finite amplitude it is a zero, and at every position
    the deterministic force has the value of a x - b x^3; for a positive
    temperature it is that very number.  For an amplitude that is NaN, as
    an emptied input field gives, or infinite, F_coupling is NaN and so is
    the force at every position. *)
Theorem C3_coupling_is_zero (M : JsMath) (p : Params) :
  Math_sin M 0 = 0 ->
  Phi_S M = spec_Phi_S M 0 /\
  Phi_S M = Phi_baseline /\
  F_coupling M p = F_mag p * 0 /\
  (forall x : float,
     F_det M p x = a p * x - b p * x * x * x + F_coupling M p) /\
  (is_finite (F_mag p) = true ->
   is_zero (F_coupling M p) = true /\
   (forall x : float,
      same_number (F_det M p x) (a p * x - b p * x * x * x)) /\
   ((0 <? T p) = true ->
    forall x : float, F_det M p x = a p * x - b p * x * x * x)) /\
  (is_finite (F_mag p) = false ->
   is_nan (F_coupling M p) = true /\
   forall x : float, is_nan (F_det M p x) = true).
Proof.
  intros Hsin.
  split; [reflexivity|]. split; [apply Phi_S_baseline; exact Hsin|].
  split; [apply F_coupling_mul_zero; exact Hsin|].
  split; [intros x; reflexivity|]. split.
  - intros Hfin. split; [apply F_coupling_is_zero; assumption|]. split.
    + intros x. unfold F_det, same_number.
      destruct (FloatFacts.add_zero_r (a p * x - b p * x * x * x) (F_coupling M p)
                  (F_coupling_is_zero M Hsin p Hfin)) as [E|[Hv Hs]].
      * left. exact E.
      * right. split; assumption.
    + intros HT x. apply F_det_uncoupled; assumption.
  - intros Hinf. split.
    + unfold is_nan. rewrite FloatAxioms.eqb_spec, (F_coupling_nan M Hsin p Hinf).
      reflexivity.
    + intros x. apply F_det_nan; assumption.
Qed.

(** ** What a run depends on *)

Section Dependence.
Import JsNum.

Variable M : JsMath.

Lemma loop_body_noise_ext (noise1 noise2 : nat -> float) (p : Params) (i : nat)
  (st : Loop.state) :
  noise1 (Loop.draws st) = noise2 (Loop.draws st) ->
  loop_body M noise1 p i st = loop_body M noise2 p i st.
Proof.
  intros H. unfold loop_body. rewrite H. reflexivity.
Qed.

(** The loop reads the first [n] values of the noise sequence only. *)
Lemma run_loop_noise_ext (noise1 noise2 : nat -> float) (p : Params) (n : nat) :
  (forall i, (i < n)%nat -> noise1 i = noise2 i) ->
  run_loop M noise1 p n = run_loop M noise2 p n.
Proof.
  induction n as [|n IH]; intros H.
  - reflexivity.
  - rewrite !run_loop_S, <- IH by (intros i Hi; apply H; lia).
    apply loop_body_noise_ext. rewrite run_loop_draws. apply H. lia.
Qed.

(** The loop and the analysis read [T], [dt], [t_end] and the force;
    [B_field] is not read, [F_mag] only through [F_coupling] in [F_det]. *)
Lemma loop_body_params_ext (noise : nat -> float) (p1 p2 : Params) (i : nat)
  (st : Loop.state) :
  T p1 = T p2 -> dt p1 = dt p2 -> t_end p1 = t_end p2 ->
  (forall x, F_det M p1 x = F_det M p2 x) ->
  loop_body M noise p1 i st = loop_body M noise p2 i st.
Proof.
  intros HT Hdt Hend HF.
  unfold loop_body. rewrite (HF (Loop.x st)).
  unfold downsample, n_steps, k_B_T.
  rewrite HT, Hdt, Hend. reflexivity.
Qed.

Lemma run_loop_params_ext (noise : nat -> float) (p1 p2 : Params) (n : nat) :
  T p1 = T p2 -> dt p1 = dt p2 -> t_end p1 = t_end p2 ->
  (forall x, F_det M p1 x = F_det M p2 x) ->
  run_loop M noise p1 n = run_loop M noise p2 n.
Proof.
  intros HT Hdt Hend HF. induction n as [|n IH].
  - reflexivity.
  - rewrite !run_loop_S, IH. apply loop_body_params_ext; assumption.
Qed.

Lemma analyse_params_ext (p1 p2 : Params) (st : Loop.state) :
  T p1 = T p2 -> t_end p1 = t_end p2 -> analyse M p1 st = analyse M p2 st.
Proof.
  intros HT Hend. unfold analyse, delta_U, k_B_T. rewrite HT, Hend. reflexivity.
Qed.

End Dependence.

(** C9. With the random source stubbed, a run is a function of the
    parameters and of the noise values it draws: two invocations with the
    same parameters and noise sequences that agree on the values drawn end
    in the same way and produce identical results (trajectory, histogram,
    spectrum and every metric), whatever state the component was in. *)
Theorem C9_determinism (M : JsMath) (noise1 noise2 : nat -> float)
  (p : Params) (c1 c2 : Component) :
  (forall n i, trip_count (t_end p / dt p) = Some n -> (i < n)%nat ->
               noise1 i = noise2 i) ->
  runSimulation M noise1 p c1 = runSimulation M noise2 p c2.
Proof.
  intros H. unfold runSimulation.
  destruct (trip_count (t_end p / dt p)) as [n|] eqn:E; [|reflexivity].
  rewrite (run_loop_noise_ext M noise1 noise2 p n) by (intros i Hi; exact (H n i eq_refl Hi)).
  reflexivity.
Qed.

(** C10. Two parameter sets with the same positive temperature, time step
    and total time, that differ only in the magnetic field and in the
    (finite) coupling amplitude, give on the same noise sequence the same
    trajectory, switch count, histogram, spectrum and metrics: [B_field] is
    never read, and [F_mag] is multiplied by Phi_S - Phi_baseline, which is
    zero. *)
Theorem C10_field_and_coupling_irrelevant (M : JsMath) (noise : nat -> float)
  (p1 p2 : Params) (c : Component) :
  Math_sin M 0 = 0 ->
  T p1 = T p2 -> dt p1 = dt p2 -> t_end p1 = t_end p2 ->
  (0 <? T p1) = true ->
  is_finite (F_mag p1) = true -> is_finite (F_mag p2) = true ->
  is_zero (F_coupling M p1) = true /\ is_zero (F_coupling M p2) = true /\
  runSimulation M noise p1 c = runSimulation M noise p2 c.
Proof.
  intros Hsin HT Hdt Hend Hpos H1 H2.
  split; [apply F_coupling_is_zero; assumption|].
  split; [apply F_coupling_is_zero; assumption|].
  assert (HF : forall x, F_det M p1 x = F_det M p2 x).
  { intros x. rewrite (F_det_uncoupled M Hsin p1 x Hpos H1).
    rewrite (F_det_uncoupled M Hsin p2 x) by (rewrite <- ?HT; assumption).
    unfold b, a, k_B_T. rewrite HT. reflexivity. }
  unfold runSimulation. rewrite Hdt, Hend.
  destruct (trip_count (t_end p2 / dt p2)) as [n|]; [|reflexivity].
  rewrite (run_loop_params_ext M noise p1 p2 n HT Hdt Hend HF).
  rewrite (analyse_params_ext M p1 p2 _ HT Hend). reflexivity.
Qed.

(** ** Switching detection *)

Section SwitchFacts.
Import JsNum.

Lemma count_switches_app (s : float) (xs ys : list float) :
  count_switches s (xs ++ ys)
  = (count_switches s xs + count_switches (final_sign s xs) ys)%nat.
Proof.
  revert s. induction xs as [|x xs IH]; intros s;
    cbn [count_switches final_sign app].
  - reflexivity.
  - destruct (strict_neq (Math_sign x) s && (0.1 * x_0 <? Math_abs x));
      rewrite IH; reflexivity.
Qed.

Lemma final_sign_app (s : float) (xs ys : list float) :
  final_sign s (xs ++ ys) = final_sign (final_sign s xs) ys.
Proof.
  revert s. induction xs as [|x xs IH]; intros s; cbn [final_sign app].
  - reflexivity.
  - destruct (strict_neq (Math_sign x) s && (0.1 * x_0 <? Math_abs x));
      apply IH.
Qed.

(** Positions within the threshold are never counted. *)
Lemma count_switches_within (s : float) (xs : list float) :
  Forall (fun x => (Math_abs x <=? 0.1 * x_0) = true) xs ->
  count_switches s xs = O.
Proof.
  induction 1 as [|x xs Hx _ IH]; cbn [count_switches].
  - reflexivity.
  - rewrite (FloatFacts.leb_not_gt _ _ Hx), andb_false_r. exact IH.
Qed.

Variable M : JsMath.
Variable noise : nat -> float.

Lemma raw_positions_S (p : Params) (n : nat) :
  raw_positions M noise p (S n)
  = raw_positions M noise p n ++ [spec_position M noise p (S n)].
Proof.
  unfold raw_positions. rewrite seq_S, map_app. reflexivity.
Qed.

(** Lines 59-63: the test reads the new position and the remembered sign. *)
Lemma loop_body_switch (p : Params) (i : nat) (st : Loop.state) :
  let x := Loop.x (loop_body M noise p i st) in
  let switched :=
    strict_neq (Math_sign x) (Loop.lastSign st) && (0.1 * x_0 <? Math_abs x) in
  Loop.switchCount (loop_body M noise p i st)
  = (if switched then S (Loop.switchCount st) else Loop.switchCount st) /\
  Loop.lastSign (loop_body M noise p i st)
  = (if switched then Math_sign x else Loop.lastSign st).
Proof. split; reflexivity. Qed.

(** The counter and the remembered sign of the loop are those of the raw
    positions: the stored (downsampled) trajectory plays no part. *)
Lemma run_loop_switches (p : Params) (n : nat) :
  Loop.switchCount (run_loop M noise p n)
  = count_switches (Math_sign (- x_0)) (raw_positions M noise p n) /\
  Loop.lastSign (run_loop M noise p n)
  = final_sign (Math_sign (- x_0)) (raw_positions M noise p n).
Proof.
  induction n as [|n [IHc IHs]].
  - split; reflexivity.
  - rewrite raw_positions_S, count_switches_app, final_sign_app, <- IHc, <- IHs.
    cbn [count_switches final_sign].
    rewrite <- (run_loop_x M noise p (S n)), run_loop_S.
    destruct (loop_body_switch p n (run_loop M noise p n)) as [Ec Es].
    cbv zeta in Ec, Es. rewrite Ec, Es.
    destruct (strict_neq _ _ && _); split; try reflexivity; lia.
Qed.

End SwitchFacts.

(** C6. The switch count is that of the sign changes beyond the threshold
    |x| > 0.1 x_0 along the raw per-step positions, each compared with the
    sign last counted, starting from the sign of -x_0; the downsampled
    trajectory is not consulted, and the count is the one reported.  If
    the position after every integration step satisfies |x| <= 0.1 x_0,
    the switch count is 0, whatever the signs of the positions. *)
Theorem C6_switch_hysteresis (M : JsMath) (noise : nat -> float) (p : Params)
  (n : nat) :
  (Loop.switchCount (run_loop M noise p n)
   = count_switches (JsNum.Math_sign (- x_0)) (raw_positions M noise p n) /\
   Loop.lastSign (run_loop M noise p n)
   = final_sign (JsNum.Math_sign (- x_0)) (raw_positions M noise p n)) /\
  (trip_count (t_end p / dt p) = Some n ->
   forall c, exists r,
     runSimulation M noise p c
     = Returns {| isRunning := false; progress := 100; results := Some r |} /\
     switches (metrics r)
     = count_switches (JsNum.Math_sign (- x_0)) (raw_positions M noise p n)) /\
  ((forall i, (i < n)%nat ->
      (JsNum.Math_abs (Loop.x (run_loop M noise p (S i))) <=? 0.1 * x_0) = true) ->
   Loop.switchCount (run_loop M noise p n) = O /\
   (trip_count (t_end p / dt p) = Some n ->
    forall c, exists r,
      runSimulation M noise p c
      = Returns {| isRunning := false; progress := 100; results := Some r |} /\
      switches (metrics r) = O)).
Proof.
  destruct (run_loop_switches M noise p n) as [Hc Hs].
  split; [split; assumption|]. split.
  - intros Hn c. unfold runSimulation. rewrite Hn.
    eexists. split; [reflexivity|]. exact Hc.
  - intros H.
    assert (H0 : Loop.switchCount (run_loop M noise p n) = O).
    { rewrite Hc. apply count_switches_within.
      unfold raw_positions. apply Forall_forall. intros x Hx.
      apply in_map_iff in Hx. destruct Hx as [i [<- Hi]].
      apply in_seq in Hi. rewrite <- run_loop_x. apply H. lia. }
    split; [exact H0|].
    intros Hn c. unfold runSimulation. rewrite Hn.
    eexists. split; [reflexivity|]. exact H0.
Qed.

(** ** The signal-to-noise metric *)

Section MaxFacts.
Import JsNum OrderFacts.

Lemma zeros_leb (u v : float) :
  is_zero u = true -> is_zero v = true -> (u <=? v) = true.
Proof.
  intros Hu Hv.
  destruct (FloatFacts.is_zero_inv u Hu) as [su Eu].
  destruct (FloatFacts.is_zero_inv v Hv) as [sv Ev].
  rewrite FloatAxioms.leb_spec, Eu, Ev. reflexivity.
Qed.

(** One step of [Math.max] keeps the larger of the two numbers. *)
Lemma max_step_spec (h x : float) :
  is_nan h = false -> is_nan x = false ->
  (max_step h x = h \/ max_step h x = x) /\
  (h <=? max_step h x) = true /\ (x <=? max_step h x) = true.
Proof.
  intros Hh Hx. unfold max_step.
  destruct (is_zero x && negb (get_sign x) && (is_zero h && get_sign h)) eqn:Ez.
  - apply andb_true_iff in Ez. destruct Ez as [Ezx Ezh].
    apply andb_true_iff in Ezx. destruct Ezx as [Ezx _].
    apply andb_true_iff in Ezh. destruct Ezh as [Ezh _].
    split; [right; reflexivity|].
    split; [apply zeros_leb; assumption | apply leb_refl; exact Hx].
  - destruct (h <? x) eqn:El.
    + split; [right; reflexivity|].
      split; [apply ltb_leb; exact El | apply leb_refl; exact Hx].
    + split; [left; reflexivity|].
      split; [apply leb_refl; exact Hh | apply leb_total; assumption].
Qed.

Lemma max_step_nan_free (h x : float) :
  is_nan h = false -> is_nan x = false -> is_nan (max_step h x) = false.
Proof.
  intros Hh Hx. destruct (max_step_spec h x Hh Hx) as [[E|E] _]; rewrite E; assumption.
Qed.

(** Minus infinity, the initial value, gives way to the first argument. *)
Lemma max_step_neg_infinity (x : float) :
  is_nan x = false -> max_step neg_infinity x = x.
Proof.
  intros Hx. unfold max_step.
  replace (is_zero neg_infinity && get_sign neg_infinity) with false by reflexivity.
  rewrite andb_false_r.
  destruct (neg_infinity <? x) eqn:El; [reflexivity|].
  apply Prim2SF_inj. pose proof (is_nan_inv x Hx) as Hn.
  rewrite FloatAxioms.ltb_spec in El.
  change (Prim2SF neg_infinity) with (S754_infinity true) in *.
  destruct (Prim2SF x) as [s| s| |s m e]; simpl in El; try discriminate; try congruence.
  destruct s; [reflexivity | discriminate].
Qed.

Lemma Math_max_from_spec (args : list float) :
  forall h, is_nan h = false ->
  Forall (fun x => is_nan x = false) args ->
  (Math_max_from h args = h \/ In (Math_max_from h args) args) /\
  (h <=? Math_max_from h args) = true /\
  Forall (fun x => (x <=? Math_max_from h args) = true) args.
Proof.
  induction args as [|x rest IH]; intros h Hh Hargs; cbn [Math_max_from].
  - split; [left; reflexivity|]. split; [apply leb_refl; exact Hh | constructor].
  - inversion Hargs as [|x' rest' Hx Hrest]; subst. rewrite Hx.
    destruct (max_step_spec h x Hh Hx) as [Hsel [Hhle Hxle]].
    destruct (IH (max_step h x) (max_step_nan_free h x Hh Hx) Hrest)
      as [Hmem [Hle Hall]].
    split; [|split].
    + destruct Hmem as [E|Hin].
      * rewrite E. destruct Hsel as [E'|E']; rewrite E'.
        -- left. reflexivity.
        -- right. left. reflexivity.
      * right. right. exact Hin.
    + apply (leb_trans _ _ _ Hhle Hle).
    + constructor; [apply (leb_trans _ _ _ Hxle Hle) | exact Hall].
Qed.

(** [Math.max] of at least one number, none of them NaN, is one of its
    arguments and is not below any of them. *)
Lemma Math_max_spec (args : list float) :
  args <> [] -> Forall (fun x => is_nan x = false) args ->
  In (Math_max args) args /\
  Forall (fun x => (x <=? Math_max args) = true) args.
Proof.
  destruct args as [|x rest]; [congruence|]. intros _ Hargs.
  inversion Hargs as [|x' rest' Hx Hrest]; subst.
  unfold Math_max. cbn [Math_max_from]. rewrite Hx, (max_step_neg_infinity x Hx).
  destruct (Math_max_from_spec rest x Hx Hrest) as [Hmem [Hle Hall]].
  split.
  - destruct Hmem as [E|Hin]; [left; symmetry; exact E | right; exact Hin].
  - constructor; assumption.
Qed.

Lemma fold_left_power (spectrum : list SpectrumEntry.t) (acc : float) :
  fold_left (fun a b => a + SpectrumEntry.power b) spectrum acc
  = fold_left (fun a b => a + b) (map SpectrumEntry.power spectrum) acc.
Proof.
  revert acc. induction spectrum as [|e rest IH]; intros acc; simpl.
  - reflexivity.
  - apply IH.
Qed.

End MaxFacts.

(** C8. For the empty spectrum the metric is 0.  Otherwise it is
    [Math.max] of the log10_power entries minus their arithmetic mean (their
    sum divided by their number); when no entry is NaN, [Math.max] is the
    maximum: one of the entries, and none exceeds it. *)
Theorem C8_snr_max_minus_mean (spectrum : list SpectrumEntry.t) :
  let powers := map SpectrumEntry.power spectrum in
  calculateSNR [] = 0 /\
  (spectrum <> [] ->
   calculateSNR spectrum
   = JsNum.Math_max powers
     - fold_left (fun a b => a + b) powers 0 / JsNum.of_nat (length powers)) /\
  (spectrum <> [] -> Forall (fun x => is_nan x = false) powers ->
   In (JsNum.Math_max powers) powers /\
   Forall (fun x => (x <=? JsNum.Math_max powers) = true) powers).
Proof.
  intros powers. split; [reflexivity|]. split.
  - intros Hne. unfold calculateSNR, powers.
    destruct spectrum as [|e rest]; [congruence|].
    cbn [length Nat.eqb]. rewrite fold_left_power, length_map. reflexivity.
  - intros Hne Hnan. apply Math_max_spec; [|exact Hnan].
    unfold powers. destruct spectrum; [congruence | discriminate].
Qed.

(** ** The power spectrum *)

Section SpectrumFacts.
Import JsNum FloatFacts.

Variable M : JsMath.

(** The inner loop: its first component is the cosine sum; its second,
    built by subtraction, is the opposite of the sine sum. *)
Lemma dft_fold (data : list float) (k : nat) (ns : list nat) :
  forall re im c s : float,
    re = c -> opposite im s ->
    let r := fold_left (dft_term M data k) ns (re, im) in
    let N := length data in
    fst r = fold_left (fun acc n =>
              acc + nth n data nan
                    * Math_cos M (2 * Math_PI * of_nat k * of_nat n / of_nat N)) ns c /\
    opposite (snd r)
      (fold_left (fun acc n =>
         acc + nth n data nan
               * Math_sin M (2 * Math_PI * of_nat k * of_nat n / of_nat N)) ns s).
Proof.
  induction ns as [|n ns IH]; intros re im c s Hre Him; cbn [fold_left].
  - split; assumption.
  - apply IH.
    + unfold dft_term. cbn [fst]. rewrite Hre. reflexivity.
    + unfold dft_term. cbn [snd]. apply opposite_sub_add. exact Him.
Qed.

(** Each entry the source pushes is the entry of the specification. *)
Lemma spectrum_entry_spec (data : list float) (k : nat) :
  spectrum_entry M data k = spec_entry M data k.
Proof.
  unfold spectrum_entry, spec_entry, dft.
  destruct (dft_fold data k (seq 0 (length data)) 0 0 0 0 eq_refl opposite_zero)
    as [Hre Him].
  cbv zeta in Hre, Him.
  destruct (fold_left (dft_term M data k) (seq 0 (length data)) (0, 0)) as [re im].
  cbn [fst snd] in Hre, Him.
  unfold spec_cos_sum, spec_sin_sum, float_sum.
  rewrite <- Hre, (opposite_square _ _ Him). reflexivity.
Qed.

(** The guard [k < N / 2] holds for k = 0, ..., ceil(N / 2) - 1. *)
Lemma spectrum_loop_spec (data : list float) (fuel : nat) :
  forall (k : nat) (acc : list SpectrumEntry.t),
    spectrum_loop M fuel data k acc
    = acc ++ map (spectrum_entry M data)
               (seq k (Nat.min fuel ((length data + 1) / 2 - k))).
Proof.
  induction fuel as [|fuel IH]; intros k acc; cbn [spectrum_loop].
  - rewrite app_nil_r. reflexivity.
  - destruct (Nat.ltb_spec (2 * k) (length data)) as [Hlt|Hge].
    + rewrite IH, <- app_assoc. f_equal.
      assert (Hk : ((length data + 1) / 2 - k = S ((length data + 1) / 2 - S k))%nat).
      { pose proof (Nat.div_mod_eq (length data + 1) 2) as Hd.
        pose proof (Nat.mod_upper_bound (length data + 1) 2) as Hm. lia. }
      rewrite Hk. reflexivity.
    + assert (Hk : ((length data + 1) / 2 - k = 0)%nat).
      { pose proof (Nat.div_mod_eq (length data + 1) 2) as Hd.
        pose proof (Nat.mod_upper_bound (length data + 1) 2) as Hm. lia. }
      rewrite Hk, Nat.min_0_r, app_nil_r. reflexivity.
Qed.

Lemma computeSimplePowerSpectrum_spec (data : list float) :
  computeSimplePowerSpectrum M data
  = firstn 100 (map (spec_entry M data) (seq 0 ((length data + 1) / 2))).
Proof.
  unfold computeSimplePowerSpectrum. rewrite spectrum_loop_spec.
  cbn [app]. rewrite Nat.sub_0_r.
  assert (Hmin : Nat.min (length data) ((length data + 1) / 2) = ((length data + 1) / 2)%nat).
  { pose proof (Nat.div_mod_eq (length data + 1) 2) as Hd.
    pose proof (Nat.mod_upper_bound (length data + 1) 2) as Hm. lia. }
  rewrite Hmin. f_equal. apply map_ext. intros k. apply spectrum_entry_spec.
Qed.

End SpectrumFacts.

(** C4 (as the source has it). The spectrum of a trajectory of length L is
    computed over the window of its first N = min(1024, L) samples.  For
    each k from 0 to ceil(N / 2) - 1, the bound the guard [k < N / 2]
    gives, the entry is (frequency = k 10, log10_power =
    log10(((Sigma_n data[n] cos(2 pi k n / N))^2
           + (Sigma_n data[n] sin(2 pi k n / N))^2) / N^2 + 1e-10)),
    and the first 100 entries at most are kept. *)
Theorem C4_power_spectrum (M : JsMath) (trajectory : list float) :
  let N := Nat.min 1024 (length trajectory) in
  let data := firstn N trajectory in
  length data = N /\
  computeSimplePowerSpectrum M data
  = firstn 100 (map (spec_entry M data) (seq 0 ((N + 1) / 2))) /\
  length (computeSimplePowerSpectrum M data) = Nat.min 100 ((N + 1) / 2) /\
  forall (p : Params) (st : Loop.state),
    Loop.trajectory st = trajectory ->
    spectrum (analyse M p st) = computeSimplePowerSpectrum M data.
Proof.
  intros N data.
  assert (HN : length data = N).
  { unfold data, N. rewrite length_firstn. lia. }
  split; [exact HN|].
  assert (Hspec : computeSimplePowerSpectrum M data
                  = firstn 100 (map (spec_entry M data) (seq 0 ((N + 1) / 2)))).
  { rewrite computeSimplePowerSpectrum_spec, HN. reflexivity. }
  split; [exact Hspec|]. split.
  - rewrite Hspec, length_firstn, length_map, length_seq. reflexivity.
  - intros p st Htraj. unfold analyse. cbn [spectrum]. rewrite Htraj. reflexivity.
Qed.

(** ** The histogram *)

Section HistogramFacts.
Import JsNum.

Lemma incr_length (i : nat) (histogram : list nat) :
  length (incr i histogram) = length histogram.
Proof.
  revert i. induction histogram as [|c rest IH]; intros [|i]; simpl;
    try reflexivity.
  rewrite IH. reflexivity.
Qed.

Lemma incr_sum (i : nat) (histogram : list nat) :
  (i < length histogram)%nat ->
  list_sum (incr i histogram) = S (list_sum histogram).
Proof.
  revert i. induction histogram as [|c rest IH]; intros [|i] Hi; simpl in *;
    try lia.
  rewrite IH by lia. lia.
Qed.

Lemma hist_add_length (histogram : list nat) (val : float) :
  length (hist_add histogram val) = length histogram.
Proof.
  unfold hist_add. destruct (bin_of val) as [bin|]; [|reflexivity].
  destruct ((0 <=? bin)%Z && (bin <? Z.of_nat hist_bins)%Z); [|reflexivity].
  apply incr_length.
Qed.

(** A binned sample adds one to the counts, any other sample nothing. *)
Lemma hist_add_sum (histogram : list nat) (val : float) :
  length histogram = hist_bins ->
  list_sum (hist_add histogram val)
  = (list_sum histogram + (if binned val then 1 else 0))%nat.
Proof.
  intros Hlen. unfold hist_add, binned.
  destruct (bin_of val) as [bin|]; [|lia].
  change (Z.of_nat hist_bins) with 50%Z.
  destruct ((0 <=? bin)%Z && (bin <? 50)%Z) eqn:E; [|lia].
  apply andb_true_iff in E. destruct E as [E0 E50].
  apply Z.leb_le in E0. apply Z.ltb_lt in E50.
  rewrite incr_sum; [lia|]. rewrite Hlen. unfold hist_bins. lia.
Qed.

Lemma histogram_fold (trajectory : list float) :
  forall histogram, length histogram = hist_bins ->
    length (fold_left hist_add trajectory histogram) = hist_bins /\
    list_sum (fold_left hist_add trajectory histogram)
    = (list_sum histogram + samples_binned trajectory)%nat.
Proof.
  unfold samples_binned.
  induction trajectory as [|val rest IH]; intros histogram Hlen; cbn [fold_left filter].
  - split; [exact Hlen | cbn [length]; lia].
  - destruct (IH (hist_add histogram val)) as [Hl Hs].
    { rewrite hist_add_length. exact Hlen. }
    split; [exact Hl|]. rewrite Hs, hist_add_sum by exact Hlen.
    destruct (binned val); cbn [length]; lia.
Qed.

Lemma samples_binned_le (trajectory : list float) :
  (samples_binned trajectory <= length trajectory)%nat.
Proof. unfold samples_binned. apply filter_length_le. Qed.

Lemma samples_binned_all (trajectory : list float) :
  samples_binned trajectory = length trajectory <-> forallb binned trajectory = true.
Proof.
  unfold samples_binned. induction trajectory as [|val rest IH]; cbn [filter forallb length].
  - split; reflexivity.
  - pose proof (filter_length_le binned rest) as Hle.
    destruct (binned val); cbn [length andb].
    + rewrite <- IH. split; intros H; lia.
    + split; intros H; [lia | discriminate].
Qed.

(** Pairing the counts with their indices, as [histogram.map((count, i) => ...)]. *)
Lemma combine_seq_nth (histogram : list nat) :
  forall start,
    combine (seq start (length histogram)) histogram
    = map (fun i => (i, nth (i - start) histogram O)) (seq start (length histogram)).
Proof.
  induction histogram as [|c rest IH]; intros start; cbn [length seq combine map].
  - reflexivity.
  - rewrite Nat.sub_diag. cbn [nth]. f_equal.
    rewrite IH. apply map_ext_in. intros i Hi. apply in_seq in Hi.
    replace (i - start)%nat with (S (i - S start)) by lia. reflexivity.
Qed.

(** In exact arithmetic the densities times the bin width add up to the
    share of the counted samples. *)
Lemma exact_density_fold (w : Q) (total : nat) (histogram : list nat) :
  ~ (w == 0)%Q -> total <> O ->
  forall acc : Q,
    (fold_left (fun acc count =>
       acc + inject_Z (Z.of_nat count) / inject_Z (Z.of_nat total) / w * w)
       histogram acc
     == acc + inject_Z (Z.of_nat (list_sum histogram)) / inject_Z (Z.of_nat total))%Q.
Proof.
  intros Hw Ht.
  assert (HL : ~ (inject_Z (Z.of_nat total) == 0)%Q).
  { intros H. apply Ht. unfold Qeq in H. simpl in H. lia. }
  induction histogram as [|c rest IH]; intros acc; cbn [fold_left]; simpl list_sum.
  - change (inject_Z (Z.of_nat 0)) with 0%Q. field. exact HL.
  - rewrite IH, Nat2Z.inj_add, inject_Z_plus. field. split; assumption.
Qed.

End HistogramFacts.

(** C5 (as the source has it). The histogram has 50 bins; its counts sum to
    samples_binned, the number of samples whose bin index
    floor((value + 2) / bin_width) lies in [0, 50), the others being dropped;
    each density is count / total_samples / bin_width.  All the samples are
    counted exactly when every bin index lies in [0, 50).  For a non-empty
    trajectory, and with the divisions and products read in exact
    arithmetic, the densities times the bin width add up to
    samples_binned / total_samples. *)
Theorem C5_histogram_counts (trajectory : list float) :
  let histogram := histogram_of trajectory in
  length histogram = 50%nat /\
  list_sum histogram = samples_binned trajectory /\
  histData_of trajectory
  = map (fun i =>
           {| HistBin.x := x_min + (JsNum.of_nat i + 0.5) * bin_width;
              HistBin.density :=
                JsNum.of_nat (nth i histogram O)
                / JsNum.of_nat (length trajectory) / bin_width |})
        (seq 0 50) /\
  (samples_binned trajectory <= length trajectory)%nat /\
  (list_sum histogram = length trajectory <-> forallb binned trajectory = true) /\
  (trajectory <> [] -> forall w : Q, ~ (w == 0)%Q ->
   (exact_density_integral w histogram (length trajectory)
    == inject_Z (Z.of_nat (samples_binned trajectory))
       / inject_Z (Z.of_nat (length trajectory)))%Q).
Proof.
  intros histogram.
  destruct (histogram_fold trajectory (repeat O hist_bins)) as [Hlen Hsum].
  { apply repeat_length. }
  fold (histogram_of trajectory) in Hlen, Hsum. fold histogram in Hlen, Hsum.
  assert (Hsum' : list_sum histogram = samples_binned trajectory).
  { rewrite Hsum. reflexivity. }
  split; [exact Hlen|]. split; [exact Hsum'|]. split; [|split; [|split]].
  - unfold histData_of. fold histogram.
    rewrite (combine_seq_nth histogram 0), Hlen, map_map.
    apply map_ext. intros i. unfold hist_point. cbn [fst snd].
    rewrite Nat.sub_0_r. reflexivity.
  - apply samples_binned_le.
  - rewrite Hsum'. apply samples_binned_all.
  - intros Hne w Hw. unfold exact_density_integral.
    rewrite exact_density_fold, Hsum'.
    + field. intros H. unfold Qeq in H. simpl in H.
      destruct trajectory; [congruence | simpl in H; lia].
    + exact Hw.
    + destruct trajectory; [congruence | discriminate].
Qed.

(** ** The barrier ratio *)

(** When k_B T underflows to zero the ratio is 0 / 0. *)
Lemma zero_ratio_nan (y : float) : is_zero y = true -> is_nan (6 * y / y) = true.
Proof.
  intros Hy. destruct (FloatFacts.is_zero_inv y Hy) as [s Ey].
  assert (E : Prim2SF (6 * y / y) = S754_nan).
  { rewrite div_spec, mul_spec, Ey. reflexivity. }
  unfold is_nan. rewrite FloatAxioms.eqb_spec, E. reflexivity.
Qed.

(** C7 (as the source has it). Whatever the other parameters, the noise and
    the state of the component, a run that returns reports as barrier ratio
    the double-precision quotient delta_U / k_B_T = (6 k_B T) / (k_B T), a
    function of the temperature alone.  When k_B T is a normal number and
    6 k_B T is finite, the quotient is 6 or one of the two doubles next to
    6, and [toFixed(2)] displays it as 6.00; at the default 310 K it is
    exactly 6.  When k_B T is zero the quotient is NaN. *)
Theorem C7_barrier_ratio (M : JsMath) (noise : nat -> float) (p : Params)
  (c : Component) :
  match runSimulation M noise p c with
  | Returns c' =>
      option_map (fun r => barrier (metrics r)) (results c')
      = Some (6 * (k_B * T p) / (k_B * T p))
  | Throws _ => False
  | Hangs => True
  end /\
  (classify (k_B_T p) = PNormal -> is_finite (delta_U p) = true ->
   (delta_U p / k_B_T p = next_down 6 \/
    delta_U p / k_B_T p = 6 \/
    delta_U p / k_B_T p = next_up 6) /\
   JsNum.toFixed 2 (delta_U p / k_B_T p) = Some (false, 600%Z)) /\
  (is_zero (k_B_T p) = true -> is_nan (delta_U p / k_B_T p) = true) /\
  6 * (k_B * T default_params) / (k_B * T default_params) = 6.
Proof.
  split; [|split; [|split; [|reflexivity]]].
  - unfold runSimulation.
    destruct (trip_count (t_end p / dt p)) as [n|]; [|exact I].
    reflexivity.
  - intros Hnormal Hfinite.
    pose proof (six_ratio (k_B_T p) Hnormal Hfinite) as Hsix.
    fold (delta_U p) in Hsix. split; [exact Hsix|].
    destruct Hsix as [E|[E|E]]; rewrite E; reflexivity.
  - apply zero_ratio_nan.
Qed.

(** ** Parameter validation *)

Section ValidationFacts.
Import JsNum.



End ValidationFacts.


(** ** The theorems at concrete inputs *)



Lemma C2_witness :
  trip_count (t_end three_steps / dt three_steps) = Some 3%nat /\
  Loop.x (run_loop RefMath.math kicks three_steps 3)
  = spec_position RefMath.math kicks three_steps 3 /\
  Loop.draws (run_loop RefMath.math kicks three_steps 3) = 3%nat.
Proof.
  destruct (C2_integrator_recurrence RefMath.math kicks three_steps 3)
    as (Htrip & _ & _ & Hpos).
  - vm_compute. reflexivity.
  - lia.
  - split; [exact Htrip | apply (Hpos 3%nat); simpl; lia].
Defined.

(** C3 is false as stated: emptying the coupling field stores NaN as the
    amplitude; F_coupling is then NaN, not zero, the force is NaN where
    a x - b x^3 is a number, and the run reports a NaN mean position. *)
Lemma C3_counterexample :
  is_nan (F_mag emptied_coupling) = true /\
  is_nan (F_coupling RefMath.math emptied_coupling) = true /\
  is_zero (F_coupling RefMath.math emptied_coupling) = false /\
  is_nan (F_det RefMath.math emptied_coupling (- x_0)) = true /\
  is_nan (a emptied_coupling * (- x_0)
          - b emptied_coupling * (- x_0) * (- x_0) * (- x_0)) = false /\
  exists r,
    runSimulation RefMath.math kicks emptied_coupling idle
    = Returns {| isRunning := false; progress := 100; results := Some r |} /\
    is_nan (mean (metrics r)) = true.
Proof.
  repeat (split; [vm_compute; reflexivity|]).
  eexists. split; [vm_compute; reflexivity|]. reflexivity.
Qed.

Lemma C3_witness :
  (is_zero (F_coupling RefMath.math default_params) = true /\
   same_number (F_det RefMath.math default_params (- x_0))
               (a default_params * (- x_0)
                - b default_params * (- x_0) * (- x_0) * (- x_0))) /\
  is_nan (F_det RefMath.math emptied_coupling (- x_0)) = true.
Proof.
  split.
  - destruct (C3_coupling_is_zero RefMath.math default_params)
      as (_ & _ & _ & _ & Hfin & _).
    + reflexivity.
    + destruct Hfin as (Hzero & Hforce & _); [reflexivity|].
      split; [exact Hzero | apply Hforce].
  - destruct (C3_coupling_is_zero RefMath.math emptied_coupling)
      as (_ & _ & _ & _ & _ & Hnan).
    + reflexivity.
    + apply Hnan. reflexivity.
Defined.

(** C4 is false as stated: a window of one sample has no index k between 0
    and floor(1 / 2) - 1, yet the spectrum has the entry of k = 0; a window
    of three samples has the entries of k = 0 and k = 1. *)
Lemma C4_counterexample :
  (Nat.min 1024 (length [1]) / 2 = 0)%nat /\
  length (computeSimplePowerSpectrum RefMath.math [1]) = 1%nat /\
  (Nat.min 1024 (length [1; 1; 1]) / 2 = 1)%nat /\
  map SpectrumEntry.freq (computeSimplePowerSpectrum RefMath.math [1; 1; 1])
  = [0; 10].
Proof. repeat split; vm_compute; reflexivity. Qed.

Lemma C4_witness :
  spectrum (analyse RefMath.math three_steps (run_loop RefMath.math kicks three_steps 3))
  = computeSimplePowerSpectrum RefMath.math
      (Loop.trajectory (run_loop RefMath.math kicks three_steps 3)).
Proof.
  destruct (C4_power_spectrum RefMath.math
              (Loop.trajectory (run_loop RefMath.math kicks three_steps 3)))
    as (_ & _ & _ & Hrun).
  apply (Hrun three_steps). reflexivity.
Defined.

(** C5 is false as stated.  The sample 2 does not fall outside [-2, 2], yet
    its bin index is 50 and it is dropped: the sum is 0, not 1.  And seven
    samples that are all binned give a sum that differs from 7 / 7 by
    rounding. *)
Lemma C5_counterexample :
  ((x_min <=? 2) && (2 <=? x_max) = true /\
   bin_of 2 = Some 50%Z /\
   density_integral (histData_of [2]) = 0) /\
  (forallb binned seven_samples = true /\
   samples_binned seven_samples = length seven_samples /\
   density_integral (histData_of seven_samples) = 0.99999999999999978 /\
   JsNum.of_nat (samples_binned seven_samples)
   / JsNum.of_nat (length seven_samples) = 1).
Proof. repeat split; vm_compute; reflexivity. Qed.

Lemma C5_witness :
  (exact_density_integral (2 # 25) (histogram_of seven_samples) 7 == 1)%Q.
Proof.
  destruct (C5_histogram_counts seven_samples) as (_ & _ & _ & _ & _ & Hexact).
  rewrite (Hexact ltac:(discriminate) (2 # 25)%Q ltac:(discriminate)).
  reflexivity.
Defined.

Lemma C6_witness :
  (map JsNum.Math_sign (raw_positions RefMath.math kicks three_steps 3) = [-1; 1; -1] /\
   Loop.switchCount (run_loop RefMath.math kicks three_steps 3) = O /\
   exists r,
     runSimulation RefMath.math kicks three_steps idle
     = Returns {| isRunning := false; progress := 100; results := Some r |} /\
     switches (metrics r) = O) /\
  (map JsNum.Math_sign (raw_positions RefMath.math jumps three_steps 3) = [1; -1; -1] /\
   Loop.switchCount (run_loop RefMath.math jumps three_steps 3) = 2%nat /\
   exists r,
     runSimulation RefMath.math jumps three_steps idle
     = Returns {| isRunning := false; progress := 100; results := Some r |} /\
     switches (metrics r) = 2%nat).
Proof.
  split.
  - destruct (C6_switch_hysteresis RefMath.math kicks three_steps 3)
      as (_ & _ & Hband).
    destruct Hband as (Hcount & Hrun).
    + intros i Hi.
      destruct i as [|[|[|i]]]; [vm_compute; reflexivity .. | lia].
    + split; [vm_compute; reflexivity|]. split; [exact Hcount|].
      apply Hrun. vm_compute. reflexivity.
  - destruct (C6_switch_hysteresis RefMath.math jumps three_steps 3)
      as ((Hcount & _) & Hrun & _).
    split; [vm_compute; reflexivity|]. split.
    + rewrite Hcount. vm_compute. reflexivity.
    + destruct (Hrun ltac:(vm_compute; reflexivity) idle) as (r & Hr & Hsw).
      exists r. split; [exact Hr|]. rewrite Hsw. vm_compute. reflexivity.
Defined.

(** C7 is false as stated.  At the smallest positive temperature k_B T
    underflows to 0 and the ratio is 0 / 0; at 3 K the quotient is one unit
    in the last place above 6. *)
Lemma C7_counterexample :
  ((0 <? T coldest) = true /\
   exists r,
     runSimulation RefMath.math kicks coldest idle
     = Returns {| isRunning := false; progress := 100; results := Some r |} /\
     is_nan (barrier (metrics r)) = true /\
     JsNum.toFixed 2 (barrier (metrics r)) = None) /\
  ((0 <? T three_kelvin) = true /\
   exists r,
     runSimulation RefMath.math kicks three_kelvin idle
     = Returns {| isRunning := false; progress := 100; results := Some r |} /\
     barrier (metrics r) = 6.0000000000000009 /\
     (barrier (metrics r) =? 6) = false).
Proof.
  split; (split; [reflexivity|]); eexists;
    (split; [vm_compute; reflexivity|]); repeat split; reflexivity.
Qed.

Lemma C7_witness :
  delta_U three_kelvin / k_B_T three_kelvin = next_up 6 /\
  JsNum.toFixed 2 (delta_U three_kelvin / k_B_T three_kelvin) = Some (false, 600%Z).
Proof.
  split; [reflexivity|].
  destruct (C7_barrier_ratio RefMath.math quiet three_kelvin idle)
    as (_ & Hnear & _ & _).
  apply Hnear; reflexivity.
Defined.

Lemma C8_witness :
  calculateSNR [ {| SpectrumEntry.freq := 0; SpectrumEntry.power := -1.5 |};
                 {| SpectrumEntry.freq := 10; SpectrumEntry.power := -3 |} ]
  = JsNum.Math_max [-1.5; -3] - fold_left (fun a b => a + b) [-1.5; -3] 0 / 2 /\
  In (JsNum.Math_max [-1.5; -3]) [-1.5; -3].
Proof.
  destruct (C8_snr_max_minus_mean
              [ {| SpectrumEntry.freq := 0; SpectrumEntry.power := -1.5 |};
                {| SpectrumEntry.freq := 10; SpectrumEntry.power := -3 |} ])
    as (_ & Hsnr & Hmax).
  split.
  - apply Hsnr. discriminate.
  - apply Hmax; [discriminate | repeat constructor].
Defined.

Lemma C9_witness :
  kicks 3 <> kicks' 3 /\
  runSimulation RefMath.math kicks three_steps idle
  = runSimulation RefMath.math kicks' three_steps
      (busy (analyse RefMath.math zero_time loop_init)).
Proof.
  split.
  - intros H. apply (f_equal is_zero) in H. discriminate H.
  - apply C9_determinism. intros n i Hn Hi.
    assert (n = 3%nat) by (vm_compute in Hn; congruence). subst n.
    destruct i as [|[|[|i]]]; try reflexivity. lia.
Defined.

Lemma C10_witness :
  runSimulation RefMath.math kicks three_steps idle
  = runSimulation RefMath.math kicks uncoupled idle.
Proof.
  apply (C10_field_and_coupling_irrelevant RefMath.math kicks three_steps uncoupled idle);
    reflexivity.
Defined.

(** ** The random source *)

Section RandomFacts.
Import JsNum.

Variable M : JsMath.
Variable Math_log : float -> float.
Variable random : nat -> float.

Lemma draw_nonzero_iff (fuel cursor : nat) (u : float) (cursor' : nat) :
  draw_nonzero random fuel cursor = Some (u, cursor') <->
  exists k, (k < fuel)%nat /\
    (forall j, (j < k)%nat -> (random (cursor + j) =? 0) = true) /\
    (random (cursor + k) =? 0) = false /\
    u = random (cursor + k) /\ cursor' = S (cursor + k).
Proof.
  revert cursor. induction fuel as [|fuel IH]; intros cursor; cbn [draw_nonzero].
  - split; [discriminate | intros (k & Hk & _); lia].
  - destruct (random cursor =? 0) eqn:E0.
    + rewrite IH. split.
      * intros (k & Hk & Hz & Hn & Hu & Hc). exists (S k).
        rewrite <- !Nat.add_succ_comm. repeat split; try assumption; try lia.
        intros [|j] Hj; [rewrite Nat.add_0_r; exact E0|].
        rewrite <- Nat.add_succ_comm. apply Hz. lia.
      * intros (k & Hk & Hz & Hn & Hu & Hc). destruct k as [|k].
        { rewrite Nat.add_0_r in Hn. congruence. }
        exists k. rewrite !Nat.add_succ_comm. repeat split; try assumption; try lia.
        intros j Hj. rewrite Nat.add_succ_comm. apply Hz. lia.
    + split.
      * intros H. injection H as Hu Hc. exists O. rewrite Nat.add_0_r.
        repeat split; auto; try lia.
      * intros (k & Hk & Hz & Hn & Hu & Hc). destruct k as [|k].
        { rewrite Nat.add_0_r in Hu, Hc. congruence. }
        specialize (Hz O ltac:(lia)). rewrite Nat.add_0_r in Hz. congruence.
Qed.

Lemma draw_nonzero_hit (fuel cursor : nat) :
  (random cursor =? 0) = false ->
  draw_nonzero random (S fuel) cursor = Some (random cursor, S cursor).
Proof. intros H. cbn [draw_nonzero]. rewrite H. reflexivity. Qed.

Lemma run_loop_random_spec (fuel : nat) (p : Params) (n : nat) :
  (forall j, (j < 2 * n)%nat -> (random j =? 0) = false) ->
  run_loop_random M Math_log random (S fuel) p n
  = Some (run_loop M (gaussian_noise M Math_log random) p n, (2 * n)%nat).
Proof.
  induction n as [|n IH]; intros H.
  - reflexivity.
  - cbn [run_loop_random]. rewrite IH by (intros j Hj; apply H; lia).
    unfold randomGaussian.
    rewrite draw_nonzero_hit by (apply H; lia).
    rewrite draw_nonzero_hit by (apply H; lia).
    rewrite run_loop_S. f_equal. f_equal.
    + apply loop_body_noise_ext. rewrite run_loop_draws.
      unfold gaussian_noise. rewrite Nat.add_1_r. reflexivity.
    + lia.
Qed.

End RandomFacts.

(** X1. [randomGaussian] returns exactly when [Math.random] yields a value
    other than zero for [u] and then one for [v]: the zeros drawn before
    each are discarded, the value returned is
    sqrt(-2 log u) cos(2 pi v) for the first such [u] and [v], and every
    call of [Math.random] made is counted, at least two. *)
Theorem randomGaussian_returns_iff (M : JsMath) (Math_log : float -> float)
  (random : nat -> float) (fuel cursor : nat) (r : float) (cursor' : nat) :
  randomGaussian M Math_log random fuel cursor = Some (r, cursor') <->
  exists k l, (k < fuel)%nat /\ (l < fuel)%nat /\
    (forall j, (j < k)%nat -> (random (cursor + j)%nat =? 0) = true) /\
    (random (cursor + k)%nat =? 0) = false /\
    (forall j, (j < l)%nat -> (random (cursor + k + 1 + j)%nat =? 0) = true) /\
    (random (cursor + k + 1 + l)%nat =? 0) = false /\
    r = JsNum.Math_sqrt (-2.0 * Math_log (random (cursor + k)%nat))
        * Math_cos M (2.0 * JsNum.Math_PI * random (cursor + k + 1 + l)%nat) /\
    cursor' = (cursor + k + l + 2)%nat.
Proof.
  unfold randomGaussian. split.
  - destruct (draw_nonzero random fuel cursor) as [[u c1]|] eqn:E1; [|discriminate].
    destruct (draw_nonzero random fuel c1) as [[v c2]|] eqn:E2; [|discriminate].
    intros H. injection H as Hr Hc.
    apply draw_nonzero_iff in E1. destruct E1 as (k & Hk & Hz & Hn & Hu & Hc1).
    apply draw_nonzero_iff in E2. destruct E2 as (l & Hl & Hz' & Hn' & Hv & Hc2).
    subst c1. replace (S (cursor + k)) with (cursor + k + 1)%nat in * by lia.
    exists k, l. repeat split; try assumption.
    + subst r u v. reflexivity.
    + lia.
  - intros (k & l & Hk & Hl & Hz & Hn & Hz' & Hn' & Hr & Hc).
    assert (E1 : draw_nonzero random fuel cursor
                 = Some (random (cursor + k)%nat, S (cursor + k))).
    { apply draw_nonzero_iff. exists k. repeat split; assumption. }
    rewrite E1.
    assert (E2 : draw_nonzero random fuel (S (cursor + k))
                 = Some (random (cursor + k + 1 + l)%nat, S (S (cursor + k) + l))).
    { apply draw_nonzero_iff. exists l.
      replace (S (cursor + k)) with (cursor + k + 1)%nat by lia.
      repeat split; try assumption. }
    rewrite E2. subst r cursor'. unfold box_muller. f_equal. f_equal. lia.
Qed.

(** X2. When [Math.random] never returns zero, each call of
    [randomGaussian] reads exactly two values, and [runSimulation] on that
    source is [runSimulation] on the noise sequence whose k-th value is
    sqrt(-2 log u) cos(2 pi v) for the values [u], [v] number 2k and
    2k + 1: the properties of a run on a stubbed noise sequence are
    properties of the run on the generator. *)
Theorem runSimulation_random_spec (M : JsMath) (Math_log : float -> float)
  (random : nat -> float) (fuel : nat) (p : Params) (c : Component) :
  (forall j, (random j =? 0) = false) ->
  runSimulation_random M Math_log random (S fuel) p c
  = Some (runSimulation M (gaussian_noise M Math_log random) p c).
Proof.
  intros H. unfold runSimulation_random, runSimulation.
  destruct (trip_count (t_end p / dt p)) as [n|]; [|reflexivity].
  rewrite run_loop_random_spec by (intros j _; apply H). reflexivity.
Qed.

(** ** NaN in the loop *)

Module NanFacts.

Lemma is_nan_true_inv (u : float) : is_nan u = true -> Prim2SF u = S754_nan.
Proof.
  unfold is_nan. rewrite FloatAxioms.eqb_spec. intros H.
  destruct (Prim2SF u) as [s| s| |s m e] eqn:E; try reflexivity; exfalso.
  - discriminate H.
  - destruct s; discriminate H.
  - pose proof (OrderFacts.SFleb_refl (S754_finite s m e) ltac:(discriminate)) as Hl.
    pose proof (FloatFacts.SFcompare_antisym (S754_finite s m e) (S754_finite s m e)) as Ha.
    unfold SFleb in Hl. unfold SFeqb in H.
    destruct (SFcompare (S754_finite s m e) (S754_finite s m e)) as [[ | | ]|];
      simpl in *; congruence.
Qed.

Lemma is_nan_intro (u : float) : Prim2SF u = S754_nan -> is_nan u = true.
Proof.
  intros E. unfold is_nan. rewrite FloatAxioms.eqb_spec, E. reflexivity.
Qed.

Lemma add_nan_l (u v : float) : is_nan u = true -> is_nan (u + v) = true.
Proof.
  intros H. apply is_nan_intro. rewrite add_spec, (is_nan_true_inv u H).
  reflexivity.
Qed.

Lemma add_nan_r (u v : float) : is_nan v = true -> is_nan (u + v) = true.
Proof.
  intros H. apply is_nan_intro. rewrite add_spec, (is_nan_true_inv v H).
  destruct (Prim2SF u); reflexivity.
Qed.

Lemma sub_nan_l (u v : float) : is_nan u = true -> is_nan (u - v) = true.
Proof.
  intros H. apply is_nan_intro. rewrite sub_spec, (is_nan_true_inv u H).
  reflexivity.
Qed.

Lemma mul_nan_r (u v : float) : is_nan v = true -> is_nan (u * v) = true.
Proof.
  intros H. apply is_nan_intro. rewrite mul_spec, (is_nan_true_inv v H).
  destruct (Prim2SF u); reflexivity.
Qed.

Lemma div_nan_l (u v : float) : is_nan u = true -> is_nan (u / v) = true.
Proof.
  intros H. apply is_nan_intro. rewrite div_spec, (is_nan_true_inv u H).
  reflexivity.
Qed.

(** No number is below the magnitude of NaN. *)
Lemma ltb_abs_nan (c u : float) : is_nan u = true -> (c <? JsNum.Math_abs u) = false.
Proof.
  intros H. unfold JsNum.Math_abs.
  rewrite FloatAxioms.ltb_spec, abs_spec, (is_nan_true_inv u H).
  unfold SFltb. destruct (Prim2SF c); reflexivity.
Qed.

End NanFacts.

Section PoisonFacts.
Import JsNum NanFacts.

Variable M : JsMath.
Variable noise : nat -> float.

(** A step from a NaN position, or with a NaN variate, ends on NaN and
    counts no switch. *)
Lemma loop_body_nan (p : Params) (i : nat) (st : Loop.state) :
  is_nan (noise (Loop.draws st)) = true \/ is_nan (Loop.x st) = true ->
  is_nan (Loop.x (loop_body M noise p i st)) = true /\
  Loop.switchCount (loop_body M noise p i st) = Loop.switchCount st /\
  Loop.lastSign (loop_body M noise p i st) = Loop.lastSign st.
Proof.
  intros H.
  assert (Hx : is_nan (Loop.x (loop_body M noise p i st)) = true).
  { cbn [loop_body Loop.x]. destruct H as [H|H].
    - apply add_nan_r, mul_nan_r, H.
    - apply add_nan_l, add_nan_l, H. }
  split; [exact Hx|].
  destruct (loop_body_switch M noise p i st) as [Hc Hs].
  rewrite Hc, Hs, (ltb_abs_nan _ _ Hx), andb_false_r. split; reflexivity.
Qed.

Lemma run_loop_nan (p : Params) (k d : nat) :
  is_nan (noise k) = true \/ is_nan (Loop.x (run_loop M noise p k)) = true ->
  is_nan (Loop.x (run_loop M noise p (S k + d))) = true /\
  Loop.switchCount (run_loop M noise p (S k + d))
  = Loop.switchCount (run_loop M noise p k) /\
  Loop.lastSign (run_loop M noise p (S k + d))
  = Loop.lastSign (run_loop M noise p k).
Proof.
  intros H. induction d as [|d (IHx & IHc & IHs)].
  - rewrite Nat.add_0_r, run_loop_S. apply loop_body_nan.
    rewrite run_loop_draws. exact H.
  - rewrite Nat.add_succ_r, run_loop_S.
    destruct (loop_body_nan p (S k + d) (run_loop M noise p (S k + d)))
      as (Hx & Hc & Hs); [right; exact IHx|].
    rewrite Hc, Hs. auto.
Qed.

End PoisonFacts.

(** X3. Nothing guards the integrator against NaN: once a variate or the
    position is NaN, the position is NaN after every later step, and no
    further switch is counted. *)
Theorem nan_poisons_run (M : JsMath) (noise : nat -> float) (p : Params)
  (k n : nat) :
  is_nan (noise k) = true \/ is_nan (Loop.x (run_loop M noise p k)) = true ->
  (k < n)%nat ->
  is_nan (Loop.x (run_loop M noise p n)) = true /\
  Loop.switchCount (run_loop M noise p n)
  = Loop.switchCount (run_loop M noise p k).
Proof.
  intros H Hn. replace n with (S k + (n - S k))%nat by lia.
  destruct (run_loop_nan M noise p k (n - S k) H) as (Hx & Hc & _). auto.
Qed.

(** ** The switch counter *)

Section CounterFacts.
Import JsNum.

(** A sign that differs from a remembered 1 or -1, at a position beyond the
    threshold, is the other of the two. *)
Lemma switched_sign (x l : float) :
  l = 1 \/ l = -1 ->
  strict_neq (Math_sign x) l && (0.1 * x_0 <? Math_abs x) = true ->
  (l = 1 -> Math_sign x = -1) /\ (l = -1 -> Math_sign x = 1).
Proof.
  intros Hl H. apply andb_true_iff in H. destruct H as [Hne Habs].
  unfold Math_sign in *.
  destruct (is_nan x) eqn:En.
  { rewrite (NanFacts.ltb_abs_nan _ _ En) in Habs. discriminate Habs. }
  destruct (x =? 0) eqn:Ez.
  { exfalso. unfold Math_abs in Habs.
    rewrite FloatAxioms.ltb_spec, abs_spec in Habs.
    rewrite FloatAxioms.eqb_spec in Ez.
    change (Prim2SF 0) with (S754_zero false) in Ez.
    destruct (Prim2SF x) as [s| s| |s m e]; try discriminate Ez;
      try (destruct s; discriminate Ez).
    vm_compute in Habs. discriminate Habs. }
  destruct (0 <? x); destruct Hl as [-> | ->]; vm_compute in Hne;
    try discriminate Hne; split; intros E; try reflexivity;
    vm_compute in E; discriminate E.
Qed.

Variable M : JsMath.
Variable noise : nat -> float.

Lemma loop_body_count (p : Params) (i : nat) (st : Loop.state) :
  (Loop.switchCount st <= Loop.switchCount (loop_body M noise p i st)
   <= S (Loop.switchCount st))%nat.
Proof.
  destruct (loop_body_switch M noise p i st) as [Hc _]. rewrite Hc.
  destruct (_ && _); lia.
Qed.

Lemma loop_body_parity (p : Params) (i : nat) (st : Loop.state) :
  Loop.lastSign st = sign_after (Loop.switchCount st) ->
  Loop.lastSign (loop_body M noise p i st)
  = sign_after (Loop.switchCount (loop_body M noise p i st)).
Proof.
  intros IH. destruct (loop_body_switch M noise p i st) as [Hc Hs].
  rewrite Hc, Hs.
  destruct (_ && _) eqn:E; [|exact IH].
  destruct (switched_sign _ (Loop.lastSign st)
              ltac:(rewrite IH; unfold sign_after; destruct (Nat.even _); auto) E)
    as [H1 H2].
  unfold sign_after in *. rewrite Nat.even_succ, <- Nat.negb_even.
  destruct (Nat.even (Loop.switchCount st)); cbn [negb]; auto.
Qed.

End CounterFacts.

(** X4. The switch counter never decreases and grows by at most one per
    step: between the steps m and m + k it gains between 0 and k. *)
Theorem switch_count_monotone (M : JsMath) (noise : nat -> float) (p : Params)
  (m k : nat) :
  (Loop.switchCount (run_loop M noise p m)
   <= Loop.switchCount (run_loop M noise p (m + k))
   <= Loop.switchCount (run_loop M noise p m) + k)%nat.
Proof.
  induction k as [|k IH].
  - rewrite !Nat.add_0_r. lia.
  - rewrite Nat.add_succ_r, run_loop_S.
    pose proof (loop_body_count M noise p (m + k) (run_loop M noise p (m + k))).
    lia.
Qed.

(** X5. The remembered sign is always 1 or -1 and flips at every counted
    switch: it is -1, the side of the start, after an even number of
    switches and 1 after an odd number. *)
Theorem last_sign_parity (M : JsMath) (noise : nat -> float) (p : Params)
  (n : nat) :
  Loop.lastSign (run_loop M noise p n)
  = if Nat.even (Loop.switchCount (run_loop M noise p n)) then -1 else 1.
Proof.
  change (Loop.lastSign (run_loop M noise p n)
          = sign_after (Loop.switchCount (run_loop M noise p n))).
  induction n as [|n IH].
  - vm_compute. reflexivity.
  - rewrite run_loop_S. apply loop_body_parity. exact IH.
Qed.

(** ** The stored samples *)

Section StorageFacts.
Import JsNum.

Variable M : JsMath.
Variable noise : nat -> float.

Lemma stored_steps_S (p : Params) (n : nat) :
  stored_steps p (S n)
  = stored_steps p n ++ (if stored p n then [n] else []).
Proof.
  unfold stored_steps. rewrite seq_S, filter_app. reflexivity.
Qed.

Lemma stored_steps_bound (p : Params) (n : nat) :
  (length (stored_steps p n) <= n)%nat /\
  Forall (fun i => (i < n)%nat) (stored_steps p n).
Proof.
  unfold stored_steps. split.
  - pose proof (filter_length_le (stored p) (seq 0 n)) as H.
    rewrite length_seq in H. exact H.
  - apply Forall_forall. intros i Hi. apply filter_In in Hi.
    destruct Hi as [Hi _]. apply in_seq in Hi. lia.
Qed.

Lemma loop_body_stored (p : Params) (i : nat) (st : Loop.state) :
  Loop.trajectory (loop_body M noise p i st)
  = Loop.trajectory st
    ++ (if stored p i then [Loop.x (loop_body M noise p i st) / x_0] else []) /\
  Loop.times (loop_body M noise p i st)
  = Loop.times st ++ (if stored p i then [of_nat i * dt p * 1e6] else []).
Proof.
  cbn [loop_body Loop.trajectory Loop.times Loop.x]. unfold stored.
  destruct (rem (of_nat i) (downsample p) =? 0); rewrite ?app_nil_r;
    split; reflexivity.
Qed.

Lemma run_loop_stored (p : Params) (n : nat) :
  Loop.trajectory (run_loop M noise p n)
  = map (fun i => spec_position M noise p (S i) / x_0) (stored_steps p n) /\
  Loop.times (run_loop M noise p n)
  = map (fun i => of_nat i * dt p * 1e6) (stored_steps p n).
Proof.
  induction n as [|n [IHx IHt]].
  - split; reflexivity.
  - rewrite run_loop_S.
    destruct (loop_body_stored p n (run_loop M noise p n)) as [Hx Ht].
    rewrite Hx, Ht, IHx, IHt, stored_steps_S, !map_app, <- run_loop_S, run_loop_x.
    destruct (stored p n); split; reflexivity.
Qed.

Lemma combine_map_same {A B C : Type} (f : A -> B) (g : A -> C) (l : list A) :
  combine (map f l) (map g l) = map (fun i => (f i, g i)) l.
Proof.
  induction l as [|i l IH]; cbn [map combine]; [|rewrite IH]; reflexivity.
Qed.

End StorageFacts.

(** X6. Downsampling only drops steps.  The stored trajectory holds, in
    order, the position in units of x_0 after each step i below n for which
    [i % downsample === 0], and [times] the matching i dt 1e6; no more
    samples are stored than steps were taken. *)
Theorem stored_samples (M : JsMath) (noise : nat -> float) (p : Params) (n : nat) :
  let st := run_loop M noise p n in
  let kept := filter (fun i => JsNum.rem (JsNum.of_nat i) (downsample p) =? 0)
                     (seq 0 n) in
  Loop.trajectory st
  = map (fun i => Loop.x (run_loop M noise p (S i)) / x_0) kept /\
  Loop.times st = map (fun i => JsNum.of_nat i * dt p * 1e6) kept /\
  (length (Loop.trajectory st) <= n)%nat.
Proof.
  intros st kept. change kept with (stored_steps p n). subst st.
  destruct (run_loop_stored M noise p n) as [Hx Ht].
  rewrite Hx, Ht, length_map. repeat split.
  - apply map_ext. intros i. rewrite run_loop_x. reflexivity.
  - apply stored_steps_bound.
Qed.

(** X7. The chart shows the first 2000 stored samples and nothing else:
    point j pairs the time of the j-th stored sample with its position, and
    there are min(2000, number of stored samples) points. *)
Theorem chart_is_trajectory_prefix (M : JsMath) (noise : nat -> float)
  (p : Params) (n : nat) :
  let st := run_loop M noise p n in
  let chart := chartData (analyse M p st) in
  map ChartPoint.time chart = firstn 2000 (Loop.times st) /\
  map ChartPoint.position chart = firstn 2000 (Loop.trajectory st) /\
  length chart = Nat.min 2000 (length (Loop.trajectory st)).
Proof.
  intros st chart. subst chart st. cbn [analyse chartData].
  destruct (run_loop_stored M noise p n) as [Hx Ht].
  rewrite Hx, Ht, combine_map_same, map_map, <- !firstn_map, !map_map.
  cbn [chart_point ChartPoint.time ChartPoint.position fst snd].
  rewrite length_firstn, !length_map. repeat split.
Qed.

(** ** The histogram, bin by bin *)

Section BinFacts.

Lemma incr_nth (i j : nat) (histogram : list nat) :
  nth j (incr i histogram) O
  = (nth j histogram O
     + (if (j =? i)%nat && (i <? length histogram)%nat then 1 else 0))%nat.
Proof.
  revert i j. induction histogram as [|c rest IH]; intros i j.
  - replace (i <? length (@nil nat))%nat with false
      by (symmetry; apply Nat.ltb_ge; cbn [length]; lia).
    rewrite andb_false_r. destruct i, j; cbn [incr nth]; lia.
  - destruct i as [|i], j as [|j]; cbn [incr nth length]; try (cbn; lia).
    rewrite IH. reflexivity.
Qed.

Lemma hist_add_nth (bin : nat) (histogram : list nat) (val : float) :
  length histogram = hist_bins -> (bin < hist_bins)%nat ->
  nth bin (hist_add histogram val) O
  = (nth bin histogram O + (if in_bin bin val then 1 else 0))%nat.
Proof.
  intros Hlen Hbin. unfold hist_add, in_bin.
  destruct (bin_of val) as [z|]; [|lia].
  destruct ((0 <=? z)%Z && (z <? Z.of_nat hist_bins)%Z) eqn:E.
  - apply andb_true_iff in E. destruct E as [E0 E1].
    apply Z.leb_le in E0. apply Z.ltb_lt in E1.
    rewrite incr_nth, Hlen.
    replace (Z.to_nat z <? hist_bins)%nat with true
      by (symmetry; apply Nat.ltb_lt; lia).
    rewrite andb_true_r.
    destruct (Nat.eqb_spec bin (Z.to_nat z)), (Z.eqb_spec z (Z.of_nat bin));
      try reflexivity; exfalso; lia.
  - destruct (Z.eqb_spec z (Z.of_nat bin)) as [->|]; [|lia].
    exfalso. apply andb_false_iff in E. destruct E as [E|E].
    + apply Z.leb_gt in E. lia.
    + apply Z.ltb_ge in E. lia.
Qed.

Lemma histogram_nth (bin : nat) (trajectory : list float) :
  (bin < hist_bins)%nat ->
  forall histogram, length histogram = hist_bins ->
    nth bin (fold_left hist_add trajectory histogram) O
    = (nth bin histogram O + bin_count bin trajectory)%nat.
Proof.
  intros Hbin. unfold bin_count.
  induction trajectory as [|val rest IH]; intros histogram Hlen;
    cbn [fold_left filter].
  - cbn [length]. lia.
  - rewrite IH by (rewrite hist_add_length; exact Hlen).
    rewrite hist_add_nth by assumption. unfold in_bin.
    destruct (bin_of val) as [z|]; [destruct (z =? Z.of_nat bin)%Z|];
      cbn [length]; lia.
Qed.

End BinFacts.

(** X8. Each histogram count is the number of samples whose bin index
    floor((value + 2) / bin_width) is the index of the bin: a sample is
    counted in one bin at most, and in none when its index is negative, 50
    or more, or not a number. *)
Theorem histogram_bin_counts (trajectory : list float) (bin : nat) :
  nth bin (histogram_of trajectory) O
  = if (bin <? 50)%nat
    then length (filter (fun val =>
                           match bin_of val with
                           | Some z => (z =? Z.of_nat bin)%Z
                           | None => false
                           end) trajectory)
    else O.
Proof.
  destruct (Nat.ltb_spec bin 50) as [Hbin|Hbin].
  - unfold histogram_of. rewrite histogram_nth.
    + rewrite nth_repeat. reflexivity.
    + exact Hbin.
    + apply repeat_length.
  - apply nth_overflow.
    destruct (histogram_fold trajectory (repeat O hist_bins)) as [Hlen _].
    { apply repeat_length. }
    unfold histogram_of. rewrite Hlen. exact Hbin.
Qed.

(** ** NaN in the spectrum *)

Section SnrFacts.
Import JsNum NanFacts.

Lemma Math_max_from_nan (args : list float) :
  Exists (fun x => is_nan x = true) args ->
  forall h, is_nan (Math_max_from h args) = true.
Proof.
  induction 1 as [x rest Hx|x rest _ IH]; intros h; cbn [Math_max_from].
  - rewrite Hx. reflexivity.
  - destruct (is_nan x); [reflexivity | apply IH].
Qed.

End SnrFacts.

(** X9. [calculateSNR] does not filter NaN: if the power of any entry is
    NaN, so is the metric. *)
Theorem calculateSNR_nan (spectrum : list SpectrumEntry.t) :
  Exists (fun e => is_nan (SpectrumEntry.power e) = true) spectrum ->
  is_nan (calculateSNR spectrum) = true.
Proof.
  intros H. unfold calculateSNR.
  destruct spectrum as [|e rest]; [inversion H|].
  cbn [length Nat.eqb]. apply NanFacts.sub_nan_l. unfold JsNum.Math_max.
  apply Math_max_from_nan. apply Exists_exists in H.
  destruct H as (e' & Hin & He'). apply Exists_exists.
  exists (SpectrumEntry.power e'). split; [|exact He'].
  apply in_map. exact Hin.
Qed.

(** ** Numbers that need no rounding *)

Module ExactFacts.
Import RoundFacts.
Local Open Scope Z_scope.

Lemma iter_xO (m d : positive) : Zpos (Pos.iter xO m d) = Zpos m * 2 ^ Zpos d.
Proof.
  induction d as [|d IH] using Pos.peano_ind.
  - cbn [Pos.iter]. lia.
  - rewrite Pos.iter_succ, Pos2Z.inj_succ, Z.pow_succ_r by lia.
    rewrite Pos2Z.inj_xO, IH. lia.
Qed.

(** Rounding a mantissa of 53 digits that is exact. *)
Lemma round_aux_53_exact (N e : Z) :
  2 ^ 52 <= N < 2 ^ 53 -> -1074 <= e <= 971 ->
  binary_round_aux prec emax false N e loc_Exact
  = S754_finite false (Z.to_pos N) e.
Proof.
  intros HN He. unfold binary_round_aux.
  rewrite shr_fexp_53 by lia.
  cbn [shr_record_of_loc shr_m loc_of_shr_record round_nearest_even].
  rewrite round_aux_finish by lia.
  destruct (Z.leb_spec e 971); [reflexivity | lia].
Qed.

(** [binary_round] of [m 2^e] when that number is [N 2^c] for a mantissa
    [N] of 53 digits and an exponent [c] of the format. *)
Lemma binary_round_exact (m : positive) (e N c : Z) :
  2 ^ 52 <= N < 2 ^ 53 -> -1074 <= c <= 971 ->
  (c <= e /\ Zpos m * 2 ^ (e - c) = N) \/ (e <= c /\ Zpos m = N * 2 ^ (c - e)) ->
  binary_round prec emax false m e = S754_finite false (Z.to_pos N) c.
Proof.
  intros HN Hc Hval.
  assert (Hd : Zpos (digits2_pos m) + e = 53 + c).
  { change (Zpos (digits2_pos m)) with (Zdigits2 (Zpos m)).
    destruct Hval as [[Hle Hv]|[Hle Hv]].
    - assert (Hw : 0 < 2 ^ (e - c)) by (apply Z.pow_pos_nonneg; lia).
      rewrite (Zdigits2_unique (Zpos m) (53 - (e - c))); [lia| |].
      + destruct (Z.le_gt_cases (53 - (e - c)) 0) as [Hneg|]; [|lia].
        exfalso.
        assert (2 ^ 53 <= 2 ^ (e - c)) by (apply Z.pow_le_mono_r; lia). nia.
      + assert (Hlt : e - c < 53).
        { destruct (Z.lt_ge_cases (e - c) 53) as [|Hge]; [assumption|].
          assert (2 ^ 53 <= 2 ^ (e - c)) by (apply Z.pow_le_mono_r; lia). nia. }
        assert (E52 : 2 ^ 52 = 2 ^ (53 - (e - c) - 1) * 2 ^ (e - c))
          by (rewrite <- Z.pow_add_r by lia; f_equal; lia).
        assert (E53 : 2 ^ 53 = 2 ^ (53 - (e - c)) * 2 ^ (e - c))
          by (rewrite <- Z.pow_add_r by lia; f_equal; lia).
        rewrite E52, E53 in HN. split; nia.
    - assert (Hw : 0 < 2 ^ (c - e)) by (apply Z.pow_pos_nonneg; lia).
      rewrite (Zdigits2_unique (Zpos m) (53 + (c - e))); [lia|lia|].
      replace (53 + (c - e) - 1) with (52 + (c - e)) by lia.
      rewrite !Z.pow_add_r by lia. rewrite Hv. split; nia. }
  unfold binary_round, shl_align. rewrite Hd, fexp_normal by lia.
  set (ce := c - e) in |- *.
  assert (Ece : c - e = ce) by reflexivity. clearbody ce.
  destruct ce as [|p|p].
  - assert (EN : Zpos m = N).
    { destruct Hval as [[_ Hv]|[_ Hv]].
      - replace (e - c) with 0 in Hv by lia. lia.
      - rewrite Ece in Hv. lia. }
    rewrite EN. replace e with c by lia. apply round_aux_53_exact; assumption.
  - assert (EN : Zpos m = N * 2 ^ Zpos p).
    { destruct Hval as [[Hle _]|[_ Hv]]; [lia|]. rewrite Ece in Hv. exact Hv. }
    assert (Hw : 0 < 2 ^ Zpos p) by (apply Z.pow_pos_nonneg; lia).
    unfold binary_round_aux, shr_fexp at 1.
    change (Zdigits2 (Zpos m)) with (Zpos (digits2_pos m)).
    rewrite Hd, fexp_normal by lia. rewrite Ece.
    cbn [shr shr_record_of_loc]. rewrite iter_pos_nat.
    pose proof (located_iter (Zpos m) (Pos.to_nat p) ltac:(lia)) as Hloc.
    set (mrs := Nat.iter (Pos.to_nat p) shr_1 _) in *.
    destruct Hloc as (Hq & Hrem & Hl). rewrite positive_nat_Z in Hrem, Hl.
    assert (Eq : shr_m mrs = N) by nia.
    rewrite Eq in Hl. replace (Zpos m - 2 ^ Zpos p * N) with 0 in Hl by lia.
    cbn [Z.eqb] in Hl. rewrite Hl, Eq.
    cbn [round_nearest_even]. replace (e + Zpos p) with c by lia.
    rewrite round_aux_finish by lia.
    destruct (Z.leb_spec c 971); [reflexivity | lia].
  - assert (EN : Zpos (Pos.iter xO m p) = N).
    { rewrite iter_xO. destruct Hval as [[_ Hv]|[Hle _]]; [|lia].
      replace (e - c) with (Zpos p) in Hv by lia. exact Hv. }
    rewrite EN. apply round_aux_53_exact; assumption.
Qed.

Lemma finite_53_valid (s : bool) (N c : Z) :
  2 ^ 52 <= N < 2 ^ 53 -> -1074 <= c <= 971 ->
  valid_binary (S754_finite s (Z.to_pos N) c) = true.
Proof.
  intros HN Hc. cbn [valid_binary]. unfold bounded, canonical_mantissa.
  change (Zpos (digits2_pos (Z.to_pos N))) with (Zdigits2 (Zpos (Z.to_pos N))).
  rewrite Z2Pos.id by lia. rewrite (Zdigits2_unique N 53) by lia.
  rewrite fexp_normal by lia. rewrite Z.eqb_refl.
  apply Z.leb_le. unfold emax, prec. lia.
Qed.

(** The 53-digit form of a positive integer below 2^53. *)
Lemma integer_form (z : Z) :
  0 < z < 2 ^ 53 ->
  exists N c, 2 ^ 52 <= N < 2 ^ 53 /\ -52 <= c <= 0 /\ N = z * 2 ^ (- c).
Proof.
  intros Hz. destruct z as [|m|m]; try lia.
  pose proof (digits2_pos_bounds m) as Hb.
  set (d := Zpos (digits2_pos m)) in *.
  assert (Hd : 1 <= d <= 53).
  { split; [unfold d; lia|].
    destruct (Z.le_gt_cases d 53) as [|Hgt]; [assumption|].
    assert (2 ^ 53 <= 2 ^ (d - 1)) by (apply Z.pow_le_mono_r; lia). lia. }
  exists (Zpos m * 2 ^ (53 - d)), (d - 53).
  assert (Hw : 0 < 2 ^ (53 - d)) by (apply Z.pow_pos_nonneg; lia).
  assert (E52 : 2 ^ 52 = 2 ^ (d - 1) * 2 ^ (53 - d))
    by (rewrite <- Z.pow_add_r by lia; f_equal; lia).
  assert (E53 : 2 ^ 53 = 2 ^ d * 2 ^ (53 - d))
    by (rewrite <- Z.pow_add_r by lia; f_equal; lia).
  split; [rewrite E52, E53; nia|]. split; [lia|].
  f_equal. f_equal. lia.
Qed.

End ExactFacts.

Section IntegerFacts.
Import JsNum RoundFacts ExactFacts.
Local Open Scope Z_scope.

(** A positive integer below 2^53 is a number, exactly. *)
Lemma of_Z_exact (z : Z) :
  0 < z < 2 ^ 53 ->
  exists N c, 2 ^ 52 <= N < 2 ^ 53 /\ -52 <= c <= 0 /\ N = z * 2 ^ (- c) /\
    Prim2SF (of_Z z) = S754_finite false (Z.to_pos N) c.
Proof.
  intros Hz. destruct (integer_form z Hz) as (N & c & HN & Hc & Hv).
  exists N, c. repeat split; try lia.
  unfold of_Z. destruct z as [|m|m]; try lia. cbn [binary_normalize].
  rewrite (binary_round_exact m 0 N c); [| lia | lia |].
  - apply Prim2SF_SF2Prim, finite_53_valid; lia.
  - left. split; [lia|]. replace (0 - c) with (- c) by lia. lia.
Qed.

End IntegerFacts.

Section RemainderFacts.
Import JsNum RoundFacts ExactFacts.
Local Open Scope Z_scope.

Lemma of_Z_zero : Prim2SF (of_Z 0) = S754_zero false.
Proof. reflexivity. Qed.

Lemma scale_integer (z N c e : Z) :
  N = z * 2 ^ (- c) -> c <= 0 -> e <= c ->
  Z.shiftl N (c - e) = z * 2 ^ (- e).
Proof.
  intros HN Hc He. rewrite Z.shiftl_mul_pow2 by lia. rewrite HN.
  rewrite <- Z.mul_assoc, <- Z.pow_add_r by lia. f_equal. f_equal. lia.
Qed.

(** [i % D === 0] on integers below 2^53 is divisibility. *)
Lemma rem_integers (i D : Z) :
  0 <= i < 2 ^ 53 -> 0 < D < 2 ^ 53 ->
  (rem (of_Z i) (of_Z D) =? 0)%float = (i mod D =? 0).
Proof.
  intros Hi HD. unfold rem.
  destruct (of_Z_exact D HD) as (ND & cD & HND & HcD & HvD & ED). rewrite ED.
  destruct (Z.eq_dec i 0) as [->|Hi0].
  { rewrite of_Z_zero, FloatAxioms.eqb_spec, of_Z_zero. rewrite Z.mod_0_l by lia.
    reflexivity. }
  destruct (of_Z_exact i ltac:(lia)) as (Ni & ci & HNi & Hci & Hvi & Ei).
  rewrite Ei, !Z2Pos.id by lia.
  set (e := Z.min ci cD).
  rewrite (scale_integer i Ni ci e Hvi) by lia.
  rewrite (scale_integer D ND cD e HvD) by lia.
  assert (Hw : 0 < 2 ^ (- e)) by (apply Z.pow_pos_nonneg; lia).
  rewrite Z.rem_mod_nonneg by nia.
  rewrite Z.mul_mod_distr_r by lia.
  pose proof (Z.mod_pos_bound i D ltac:(lia)) as Hk.
  set (k := i mod D) in *.
  destruct (Z.eqb_spec k 0) as [Ek|Ek].
  - rewrite Ek. cbn [Z.mul Z.eqb]. reflexivity.
  - destruct (Z.eqb_spec (k * 2 ^ (- e)) 0) as [E0|_]; [nia|].
    destruct (integer_form k ltac:(lia)) as (Nk & ck & HNk & Hck & Hvk).
    assert (Hr : 0 < k * 2 ^ (- e)) by nia.
    destruct (k * 2 ^ (- e)) as [|pr|pr] eqn:Er; try lia.
    cbn [cond_Zopp binary_normalize].
    rewrite (binary_round_exact pr e Nk ck); [| lia | lia |].
    + rewrite FloatAxioms.eqb_spec, Prim2SF_SF2Prim
        by (apply finite_53_valid; lia).
      reflexivity.
    + rewrite <- Er, Hvk. destruct (Z.le_gt_cases ck e) as [Hle|Hgt].
      * left. split; [exact Hle|].
        rewrite <- Z.mul_assoc, <- Z.pow_add_r by lia. f_equal. f_equal. lia.
      * right. split; [lia|].
        rewrite <- Z.mul_assoc, <- Z.pow_add_r by lia. f_equal. f_equal. lia.
Qed.

End RemainderFacts.

Section StrideFacts.
Import JsNum.

Lemma stored_stride (p : Params) (D i : nat) :
  downsample p = of_nat D -> (0 < D)%nat ->
  (Z.of_nat D < 2 ^ 53)%Z -> (Z.of_nat i < 2 ^ 53)%Z ->
  stored p i = (i mod D =? 0)%nat.
Proof.
  intros Hd HD HD' Hi. unfold stored, of_nat. rewrite Hd. unfold of_nat.
  rewrite rem_integers by lia.
  rewrite <- Nat2Z.inj_mod.
  destruct (Nat.eqb_spec (i mod D) 0) as [E|E].
  - rewrite E. reflexivity.
  - apply Z.eqb_neq. lia.
Qed.

End StrideFacts.

(** ** The first sample *)

Module QuotientFacts.
Import RoundFacts.
Local Open Scope Z_scope.

Lemma shr_1_nonneg (mrs : shr_record) : 0 <= shr_m mrs -> 0 <= shr_m (shr_1 mrs).
Proof.
  destruct mrs as [m r s]. cbn [shr_m]. intros H.
  destruct m as [|[p|p|]|p]; cbn [shr_1 shr_m]; lia.
Qed.

Lemma shr_fexp_nonneg (m e : Z) (l : location) :
  0 <= m -> 0 <= shr_m (fst (shr_fexp prec emax m e l)).
Proof.
  intros H. unfold shr_fexp, shr.
  assert (H0 : 0 <= shr_m (shr_record_of_loc m l))
    by (rewrite shr_m_record_of_loc; exact H).
  destruct (fexp prec emax (Zdigits2 m + e) - e) as [|p|p]; cbn [fst];
    try exact H0.
  rewrite iter_pos_nat. induction (Pos.to_nat p) as [|k IH]; cbn [Nat.iter].
  - exact H0.
  - apply shr_1_nonneg, IH.
Qed.

(** Rounding a mantissa that is not negative never gives NaN. *)
Lemma binary_round_aux_not_nan (s : bool) (m e : Z) (l : location) :
  0 <= m -> binary_round_aux prec emax s m e l <> S754_nan.
Proof.
  intros H. unfold binary_round_aux.
  pose proof (shr_fexp_nonneg m e l H) as H1.
  destruct (shr_fexp prec emax m e l) as [mrs' e']. cbn [fst] in H1.
  assert (HN : 0 <= round_nearest_even (shr_m mrs') (loc_of_shr_record mrs'))
    by (destruct (round_step (shr_m mrs') (loc_of_shr_record mrs')) as [E|E];
        rewrite E; lia).
  pose proof (shr_fexp_nonneg _ e' loc_Exact HN) as H2.
  destruct (shr_fexp prec emax _ e' loc_Exact) as [mrs'' e'']. cbn [fst] in H2.
  destruct (shr_m mrs''); try lia; try discriminate.
  destruct (e'' <=? emax - prec); discriminate.
Qed.

(** The quotient of two finite numbers that are not zero is not NaN. *)
Lemma SFdiv_finite_not_nan (su sv : bool) (mu mv : positive) (eu ev : Z) :
  SF64div (S754_finite su mu eu) (S754_finite sv mv ev) <> S754_nan.
Proof.
  unfold SF64div, SFdiv, SFdiv_core_binary.
  set (m' := match _ - _ - _ with Z0 => Zpos mu | Zpos _ => _ | Zneg _ => 0 end).
  assert (Hm : 0 <= m').
  { unfold m'. destruct (_ - _ - _); try lia. apply Z.shiftl_nonneg. lia. }
  pose proof (Z_div_mod m' (Zpos mv) ltac:(lia)) as Hdiv.
  destruct (Z.div_eucl m' (Zpos mv)) as [q r].
  apply binary_round_aux_not_nan. nia.
Qed.

(** A valid mantissa is below 2^53. *)
Lemma valid_mantissa (s : bool) (m : positive) (e : Z) :
  valid_binary (S754_finite s m e) = true -> Zpos m < 2 ^ 53.
Proof.
  cbn [valid_binary]. unfold bounded, canonical_mantissa. intros H.
  apply andb_true_iff in H. destruct H as [H _]. apply Z.eqb_eq in H.
  pose proof (digits2_pos_bounds m) as [_ Hb].
  unfold fexp, SpecFloat.emin, prec, emax in H.
  assert (Zpos (digits2_pos m) <= 53) by lia.
  assert (2 ^ Zpos (digits2_pos m) <= 2 ^ 53) by (apply Z.pow_le_mono_r; lia).
  lia.
Qed.

End QuotientFacts.

Section FirstSampleFacts.
Import JsNum RoundFacts ExactFacts QuotientFacts.
Local Open Scope Z_scope.

(** [Math.floor] of a number that is neither NaN nor negative is such a
    number. *)
Lemma Math_floor_plain (w : float) : plain w -> plain (Math_floor w).
Proof.
  intros [Hn Hs]. unfold Math_floor. unfold nonneg in Hs.
  pose proof (Prim2SF_valid w) as Hv.
  destruct (Prim2SF w) as [s| s| |s m e] eqn:E;
    try (split; [|unfold nonneg]; rewrite E; assumption).
  destruct (Z.leb_spec 0 e) as [He|He];
    [split; [|unfold nonneg]; rewrite E; assumption|].
  cbn [signed] in Hs. subst s. cbn [cond_Zopp].
  assert (Hz : 0 <= Z.shiftl (Zpos m) e) by (apply Z.shiftl_nonneg; lia).
  assert (Hlt : Z.shiftl (Zpos m) e < 2 ^ 53).
  { apply valid_mantissa in Hv. rewrite Z.shiftl_div_pow2 by lia.
    assert (0 < 2 ^ (- e)) by (apply Z.pow_pos_nonneg; lia).
    apply Z.div_lt_upper_bound; nia. }
  destruct (Z.eq_dec (Z.shiftl (Zpos m) e) 0) as [E0|E0].
  - rewrite E0. unfold plain, nonneg. rewrite of_Z_zero.
    split; [discriminate|reflexivity].
  - destruct (of_Z_exact (Z.shiftl (Zpos m) e) ltac:(lia))
      as (N & c & _ & _ & _ & EN).
    unfold plain, nonneg. rewrite EN. split; [discriminate|reflexivity].
Qed.

(** The bound of a loop that takes a step is a positive finite number. *)
Lemma n_steps_finite (q : float) (n : nat) :
  trip_count q = Some (S n) ->
  exists m e, Prim2SF (Math_floor q) = S754_finite false m e.
Proof.
  unfold trip_count, floorZ, Math_floor. intros H.
  pose proof (Prim2SF_valid q) as Hv.
  destruct (Prim2SF q) as [s| s| |s m e] eqn:E.
  - discriminate H.
  - destruct (0 <? q)%float; discriminate H.
  - destruct (0 <? q)%float; discriminate H.
  - destruct (Z.leb_spec (Z.shiftl (cond_Zopp s (Zpos m)) e) (2 ^ 53)) as [Hle|];
      [|discriminate H].
    injection H as H.
    assert (Hz : 0 < Z.shiftl (cond_Zopp s (Zpos m)) e) by lia.
    assert (Es : s = false).
    { destruct s; [|reflexivity]. exfalso. cbn [cond_Zopp] in Hz.
      assert (Z.shiftl (- Zpos m) e < 0) by (apply Z.shiftl_neg; lia). lia. }
    subst s. cbn [cond_Zopp] in *.
    destruct (Z.leb_spec 0 e) as [He|He]; [exists m, e; exact E|].
    assert (Hlt : Z.shiftl (Zpos m) e < 2 ^ 53).
    { apply valid_mantissa in Hv. rewrite Z.shiftl_div_pow2 by lia.
      assert (0 < 2 ^ (- e)) by (apply Z.pow_pos_nonneg; lia).
      apply Z.div_lt_upper_bound; nia. }
    destruct (of_Z_exact (Z.shiftl (Zpos m) e) ltac:(lia))
      as (N & c & _ & _ & _ & EN).
    exists (Z.to_pos N), c. exact EN.
Qed.

Lemma div_plain (u v : float) (mu mv : positive) (eu ev : Z) :
  Prim2SF u = S754_finite false mu eu -> Prim2SF v = S754_finite false mv ev ->
  plain (u / v).
Proof.
  intros Eu Ev. split.
  - rewrite div_spec, Eu, Ev. apply SFdiv_finite_not_nan.
  - apply div_nonneg; unfold nonneg; [rewrite Eu | rewrite Ev]; reflexivity.
Qed.

(** [Math.max(1, y)] for a [y] that is not NaN is neither NaN nor zero. *)
Lemma max_one_usable (y : float) :
  Prim2SF y <> S754_nan ->
  match Prim2SF (Math_max [1; y]%float) with
  | S754_finite _ _ _ | S754_infinity _ => True
  | _ => False
  end.
Proof.
  intros Hy. unfold Math_max. cbn [Math_max_from].
  change (is_nan 1) with false. cbv iota.
  assert (En : is_nan y = false).
  { destruct (is_nan y) eqn:En; [|reflexivity].
    apply NanFacts.is_nan_true_inv in En. congruence. }
  rewrite En. change (max_step neg_infinity 1) with 1%float.
  unfold max_step. change (is_zero 1) with false. rewrite andb_false_r.
  destruct (1 <? y)%float eqn:Elt.
  - rewrite FloatAxioms.ltb_spec in Elt.
    destruct (Prim2SF y) as [s| s| |s m e]; try exact I; discriminate Elt.
  - exact I.
Qed.

Lemma downsample_usable (p : Params) (n : nat) :
  trip_count (t_end p / dt p) = Some (S n) ->
  match Prim2SF (downsample p) with
  | S754_finite _ _ _ | S754_infinity _ => True
  | _ => False
  end.
Proof.
  intros H. unfold downsample. apply max_one_usable.
  destruct (n_steps_finite _ _ H) as (m & e & E).
  apply Math_floor_plain.
  apply (div_plain _ _ m 5497558138880000%positive e (-40) E). reflexivity.
Qed.

(** Step 0 passes the test of line 66. *)
Lemma stored_zero (p : Params) (n : nat) :
  trip_count (t_end p / dt p) = Some (S n) -> stored p O = true.
Proof.
  intros H. apply downsample_usable in H. unfold stored, rem.
  change (of_nat 0) with (of_Z 0). rewrite of_Z_zero.
  destruct (Prim2SF (downsample p)); try contradiction; reflexivity.
Qed.

End FirstSampleFacts.

(** X10. A run that takes a step stores a sample: step 0 always passes the
    downsampling test, so the trajectory starts with the position after
    the first step, in units of x_0, and is not empty. *)
Theorem first_sample_stored (M : JsMath) (noise : nat -> float) (p : Params)
  (n : nat) :
  trip_count (t_end p / dt p) = Some (S n) ->
  let st := run_loop M noise p (S n) in
  hd_error (Loop.trajectory st) = Some (Loop.x (run_loop M noise p 1) / x_0) /\
  (0 < length (Loop.trajectory st) <= S n)%nat.
Proof.
  intros H st. subst st.
  destruct (run_loop_stored M noise p (S n)) as [Hx _]. rewrite Hx.
  pose proof (stored_steps_bound p (S n)) as [Hlen _].
  unfold stored_steps in *. cbn [seq filter] in *.
  rewrite (stored_zero p n H) in *. rewrite length_map.
  cbn [map hd_error length] in *.
  rewrite run_loop_x. split; [reflexivity | lia].
Qed.

(** ** The zero-frequency entry of the spectrum *)

Module UnitFacts.
Import RoundFacts.
Local Open Scope Z_scope.

(** Rounding [m 2^52] at the exponent [e - 52] gives back the valid
    number [m 2^e]. *)
Lemma round_aux_unit (s : bool) (m : positive) (e : Z) :
  valid_binary (S754_finite s m e) = true ->
  binary_round_aux prec emax s (Zpos m * 2 ^ 52) (e - 52) loc_Exact
  = S754_finite s m e.
Proof.
  cbn [valid_binary]. unfold bounded, canonical_mantissa. intros H.
  apply andb_true_iff in H. destruct H as [Hc He].
  apply Z.eqb_eq in Hc. apply Z.leb_le in He.
  pose proof (digits2_pos_bounds m) as Hb.
  set (d := Zpos (digits2_pos m)) in *.
  assert (Hd : 0 < d) by (unfold d; lia).
  assert (Hdig : Zdigits2 (Zpos m * 2 ^ 52) = d + 52).
  { apply Zdigits2_unique; [lia|].
    replace (d + 52 - 1) with (d - 1 + 52) by lia.
    rewrite !Z.pow_add_r by lia. nia. }
  unfold binary_round_aux, shr_fexp at 1. rewrite Hdig.
  replace (d + 52 + (e - 52)) with (d + e) by lia. rewrite Hc.
  replace (e - (e - 52)) with 52 by lia.
  cbn [shr shr_record_of_loc]. rewrite iter_pos_nat.
  pose proof (located_iter (Zpos m * 2 ^ 52) (Pos.to_nat 52) ltac:(lia)) as Hloc.
  set (mrs := Nat.iter (Pos.to_nat 52) shr_1 _) in *.
  destruct Hloc as (Hq & Hrem & Hl). rewrite positive_nat_Z in Hrem, Hl.
  assert (Eq : shr_m mrs = Zpos m) by lia.
  rewrite Eq in Hl. replace (Zpos m * 2 ^ 52 - 2 ^ 52 * Zpos m) with 0 in Hl by lia.
  cbn [Z.eqb] in Hl. rewrite Hl, Eq. cbn [round_nearest_even].
  replace (e - 52 + 52) with e by lia.
  unfold shr_fexp. change (Zdigits2 (Zpos m)) with d. rewrite Hc, Z.sub_diag.
  cbn [shr shr_record_of_loc shr_m].
  destruct (Z.leb_spec e (emax - prec)); [reflexivity | lia].
Qed.

End UnitFacts.

Section UnitArithmetic.
Import JsNum ExactFacts UnitFacts.

(** Multiplying by one changes nothing. *)
Lemma mul_one_r (u : float) : u * 1 = u.
Proof.
  apply Prim2SF_inj. rewrite mul_spec.
  change (Prim2SF 1) with (S754_finite false 4503599627370496 (-52)).
  pose proof (Prim2SF_valid u) as Hv.
  destruct (Prim2SF u) as [s| s| |s m e]; cbn [SF64mul SFmul];
    rewrite ?xorb_false_r; try reflexivity.
  rewrite Pos2Z.inj_mul. change (Zpos 4503599627370496) with (2 ^ 52)%Z.
  replace (e + -52)%Z with (e - 52)%Z by lia.
  apply round_aux_unit. exact Hv.
Qed.

(** The counters of a loop over an array are numbers that are not negative. *)
Lemma of_nat_finite (n : nat) :
  (Z.of_nat n < 2 ^ 53)%Z ->
  Prim2SF (of_nat n) = S754_zero false \/
  exists m e, Prim2SF (of_nat n) = S754_finite false m e.
Proof.
  intros Hn. unfold of_nat. destruct (Z.eq_dec (Z.of_nat n) 0) as [E|E].
  - left. rewrite E. reflexivity.
  - right. destruct (of_Z_exact (Z.of_nat n) ltac:(lia)) as (N & c & _ & _ & _ & EN).
    exists (Z.to_pos N), c. exact EN.
Qed.

(** The angle of line 144 for k = 0. *)
Lemma angle_zero (n N : nat) :
  (Z.of_nat n < 2 ^ 53)%Z -> (0 < N)%nat -> (Z.of_nat N < 2 ^ 53)%Z ->
  2 * Math_PI * of_nat 0 * of_nat n / of_nat N = 0.
Proof.
  intros Hn HN HN'.
  change (2 * Math_PI * of_nat 0) with 0.
  apply Prim2SF_inj. rewrite div_spec, mul_spec.
  change (Prim2SF 0) with (S754_zero false).
  destruct (of_nat_finite N HN') as [EN|(mN & eN & EN)].
  { exfalso. unfold of_nat in EN.
    destruct (of_Z_exact (Z.of_nat N) ltac:(lia)) as (N' & c & _ & _ & _ & EN').
    congruence. }
  rewrite EN.
  destruct (of_nat_finite n Hn) as [En|(mn & en & En)]; rewrite En; reflexivity.
Qed.

End UnitArithmetic.

Section ZeroFrequency.
Import JsNum FloatFacts.

Variable M : JsMath.
Hypothesis cos_zero : Math_cos M 0 = 1.
Hypothesis sin_zero : Math_sin M 0 = 0.

(** Summing [data[n]] over the indices is summing the list. *)
Lemma sum_by_index (data : list float) :
  forall (pre : list float) (acc : float),
    fold_left (fun a n => a + nth n (pre ++ data) nan)
              (seq (length pre) (length data)) acc
    = fold_left (fun a b => a + b) data acc.
Proof.
  induction data as [|v rest IH]; intros pre acc; cbn [length seq fold_left].
  - reflexivity.
  - rewrite app_nth2, Nat.sub_diag by lia. cbn [nth].
    replace (pre ++ v :: rest) with ((pre ++ [v]) ++ rest)
      by (rewrite <- app_assoc; reflexivity).
    replace (S (length pre)) with (length (pre ++ [v]))
      by (rewrite length_app; cbn [length]; lia).
    apply IH.
Qed.

Lemma fold_left_ext_in {A B : Type} (f g : A -> B -> A) (l : list B) :
  (forall a b, In b l -> f a b = g a b) ->
  forall acc, fold_left f l acc = fold_left g l acc.
Proof.
  induction l as [|b l IH]; intros H acc; cbn [fold_left].
  - reflexivity.
  - rewrite H by (left; reflexivity). apply IH.
    intros a' b' Hin. apply H. right. exact Hin.
Qed.

Lemma cos_sum_zero (data : list float) :
  (Z.of_nat (length data) < 2 ^ 53)%Z ->
  spec_cos_sum M data 0 = fold_left (fun a b => a + b) data 0.
Proof.
  intros HN. unfold spec_cos_sum, float_sum.
  rewrite <- (sum_by_index data [] 0). cbn [length app].
  apply fold_left_ext_in. intros acc n Hin. apply in_seq in Hin.
  rewrite angle_zero by lia. rewrite cos_zero, mul_one_r. reflexivity.
Qed.

Lemma sin_sum_zero (data : list float) :
  (Z.of_nat (length data) < 2 ^ 53)%Z ->
  Forall (fun v => is_finite v = true) data ->
  is_zero (spec_sin_sum M data 0) = true.
Proof.
  intros HN Hfin. unfold spec_sin_sum, float_sum.
  assert (H : forall ns acc, is_zero acc = true ->
            Forall (fun n => (n < length data)%nat) ns ->
            is_zero (fold_left
              (fun a n => a + nth n data nan
                 * Math_sin M (2 * Math_PI * of_nat 0 * of_nat n
                               / of_nat (length data))) ns acc) = true).
  { induction ns as [|n ns IH]; intros acc Hacc Hns; cbn [fold_left].
    - exact Hacc.
    - inversion Hns as [|n' ns' Hn Hns']; subst. apply IH; [|exact Hns'].
      rewrite angle_zero by lia. rewrite sin_zero.
      assert (Hz : is_zero (nth n data nan * 0) = true).
      { apply mul_zero_r; [|reflexivity].
        rewrite Forall_forall in Hfin. apply Hfin, nth_In, Hn. }
      destruct (add_zero_r acc _ Hz) as [E|[_ E]]; [rewrite E; exact Hacc | exact E]. }
  apply H; [reflexivity|]. apply Forall_forall. intros n Hin.
  apply in_seq in Hin. lia.
Qed.

Lemma zero_square (z : float) : is_zero z = true -> z * z = 0.
Proof.
  intros Hz. apply is_zero_inv in Hz. destruct Hz as [s E].
  apply Prim2SF_inj. rewrite mul_spec, E. destruct s; reflexivity.
Qed.

Lemma square_not_neg_zero (u : float) : Prim2SF (u * u) <> S754_zero true.
Proof.
  rewrite mul_spec. destruct (SignFacts.signed_exists (Prim2SF u)) as [s Hs].
  pose proof (SignFacts.SFmul_signed s s _ _ Hs Hs) as H.
  rewrite xorb_nilpotent in H. intros E. rewrite E in H. discriminate H.
Qed.

Lemma spec_entry_zero (data : list float) :
  data <> [] -> (Z.of_nat (length data) < 2 ^ 53)%Z ->
  Forall (fun v => is_finite v = true) data ->
  spec_entry M data 0
  = let sum := fold_left (fun a b => a + b) data 0 in
    let N := of_nat (length data) in
    {| SpectrumEntry.freq := 0;
       SpectrumEntry.power := Math_log10 M (sum * sum / (N * N) + 1e-10) |}.
Proof.
  intros Hne HN Hfin. unfold spec_entry. cbv zeta.
  rewrite cos_sum_zero by exact HN.
  rewrite (zero_square _ (sin_sum_zero data HN Hfin)).
  set (sum := fold_left (fun a b => a + b) data 0).
  rewrite (add_zero_neutral (sum * sum) 0 (square_not_neg_zero sum) eq_refl).
  reflexivity.
Qed.

End ZeroFrequency.

(** X11. The first entry of the spectrum is the zero-frequency term: for a
    non-empty window of finite samples it has frequency 0 and log10_power
    log10((Sigma_n data[n])^2 / N^2 + 1e-10), the samples being added in
    their order.  It holds for every [Math] with cos(0) = 1 and
    sin(0) = 0, the two values ECMAScript fixes. *)
Theorem zero_frequency_entry (M : JsMath) (data : list float) :
  Math_cos M 0 = 1 -> Math_sin M 0 = 0 ->
  data <> [] -> (Z.of_nat (length data) < 2 ^ 53)%Z ->
  Forall (fun v => is_finite v = true) data ->
  hd_error (computeSimplePowerSpectrum M data)
  = Some (let sum := fold_left (fun a b => a + b) data 0 in
          let N := JsNum.of_nat (length data) in
          {| SpectrumEntry.freq := 0;
             SpectrumEntry.power := Math_log10 M (sum * sum / (N * N) + 1e-10) |}).
Proof.
  intros Hcos Hsin Hne HN Hfin.
  rewrite computeSimplePowerSpectrum_spec.
  assert (Hk : exists k, ((length data + 1) / 2 = S k)%nat).
  { destruct data as [|v rest]; [congruence|]. cbn [length].
    pose proof (Nat.div_mod_eq (S (length rest) + 1) 2) as Hd.
    pose proof (Nat.mod_upper_bound (S (length rest) + 1) 2) as Hm.
    destruct ((S (length rest) + 1) / 2)%nat as [|k]; [lia | exists k; reflexivity]. }
  destruct Hk as [k Hk]. rewrite Hk. cbn [seq map firstn hd_error].
  rewrite (spec_entry_zero M Hcos Hsin data Hne HN Hfin). reflexivity.
Qed.

(** ** NaN in the results *)

Section MeanFacts.
Import JsNum NanFacts.

Lemma fold_add_nan (l : list float) :
  forall acc, is_nan acc = true \/ Exists (fun v => is_nan v = true) l ->
    is_nan (fold_left (fun a b => a + b) l acc) = true.
Proof.
  induction l as [|v l IH]; intros acc H; cbn [fold_left].
  - destruct H as [H|H]; [exact H | inversion H].
  - apply IH. destruct H as [H|H].
    + left. apply add_nan_l, H.
    + inversion H as [v' l' Hv|v' l' Hl]; subst.
      * left. apply add_nan_r, Hv.
      * right. exact Hl.
Qed.

Lemma mean_of_nan (trajectory : list float) :
  Exists (fun v => is_nan v = true) trajectory ->
  is_nan (mean_of trajectory) = true.
Proof.
  intros H. unfold mean_of. apply div_nan_l, fold_add_nan. right. exact H.
Qed.

End MeanFacts.

(** X12. NaN reaches the results unnoticed: if a variate is NaN and a step
    at or after it passes the downsampling test, the run still returns and
    the mean position it reports is NaN. *)
Theorem nan_reaches_mean (M : JsMath) (noise : nat -> float) (p : Params)
  (c : Component) (k i n : nat) :
  trip_count (t_end p / dt p) = Some n ->
  is_nan (noise k) = true -> (k <= i < n)%nat ->
  (JsNum.rem (JsNum.of_nat i) (downsample p) =? 0) = true ->
  exists r, runSimulation M noise p c
            = Returns {| isRunning := false; progress := 100; results := Some r |}
            /\ is_nan (mean (metrics r)) = true.
Proof.
  intros Hn Hk Hi Hs. unfold runSimulation. rewrite Hn.
  eexists. split; [reflexivity|]. cbn [analyse metrics mean].
  apply mean_of_nan.
  destruct (run_loop_stored M noise p n) as [Hx _]. rewrite Hx.
  apply Exists_exists.
  exists (spec_position M noise p (S i) / x_0). split.
  - apply in_map_iff. exists i. split; [reflexivity|].
    unfold stored_steps. apply filter_In. split; [apply in_seq; lia | exact Hs].
  - apply NanFacts.div_nan_l. rewrite <- run_loop_x.
    replace (S i) with (S k + (i - k))%nat by lia.
    apply (run_loop_nan M noise p k (i - k)). left. exact Hk.
Qed.

(** ** Progress reports *)

Section ProgressFacts.
Import JsNum RoundFacts ExactFacts QuotientFacts.
Local Open Scope Z_scope.

(** A valid number with an exponent that is not negative is at least 2^52. *)
Lemma valid_large (s : bool) (m : positive) (e : Z) :
  valid_binary (S754_finite s m e) = true -> 0 <= e -> 2 ^ 52 <= Zpos m.
Proof.
  cbn [valid_binary]. unfold bounded, canonical_mantissa. intros H He.
  apply andb_true_iff in H. destruct H as [H _]. apply Z.eqb_eq in H.
  pose proof (digits2_pos_bounds m) as [Hb _].
  unfold fexp, SpecFloat.emin, prec, emax in H.
  replace (Zpos (digits2_pos m)) with 53 in Hb by lia. exact Hb.
Qed.

(** The bound of a loop of n steps, for 0 < n < 2^52, is the number n. *)
Lemma n_steps_exact (q : float) (n : nat) :
  trip_count q = Some n -> (0 < n)%nat -> Z.of_nat n < 2 ^ 52 ->
  Math_floor q = of_nat n.
Proof.
  unfold trip_count, floorZ, Math_floor, of_nat. intros H Hn Hlt.
  pose proof (Prim2SF_valid q) as Hv.
  destruct (Prim2SF q) as [s| s| |s m e] eqn:E.
  - injection H as H. lia.
  - destruct (0 <? q)%float; [discriminate H | injection H as H; lia].
  - destruct (0 <? q)%float; [discriminate H | injection H as H; lia].
  - destruct (Z.leb_spec (Z.shiftl (cond_Zopp s (Zpos m)) e) (2 ^ 53)) as [Hle|];
      [|discriminate H].
    injection H as H.
    assert (Ez : Z.shiftl (cond_Zopp s (Zpos m)) e = Z.of_nat n) by lia.
    destruct (Z.leb_spec 0 e) as [He|He]; [|rewrite Ez; reflexivity].
    exfalso. pose proof (valid_large s m e Hv He) as Hm.
    destruct s; cbn [cond_Zopp] in Ez.
    + assert (Z.shiftl (- Zpos m) e < 0) by (apply Z.shiftl_neg; lia). lia.
    + rewrite Z.shiftl_mul_pow2 in Ez by lia.
      assert (0 < 2 ^ e) by (apply Z.pow_pos_nonneg; lia). nia.
Qed.

End ProgressFacts.

Section ShortRunFacts.
Import JsNum.

Variable M : JsMath.
Variable noise : nat -> float.

Lemma short_run_modulus (p : Params) (n : nat) :
  trip_count (t_end p / dt p) = Some n -> (0 < n < 20)%nat ->
  is_zero (Math_floor (n_steps p / 20)) = true.
Proof.
  intros H Hn. unfold n_steps.
  rewrite (n_steps_exact _ n H) by lia.
  do 20 (destruct n as [|n]; [try lia; vm_compute; reflexivity|]). lia.
Qed.

(** Line 72 with a modulus that is zero: [i % 0] is NaN. *)
Lemma loop_body_silent (p : Params) (i : nat) (st : Loop.state) :
  is_zero (Math_floor (n_steps p / 20)) = true ->
  Loop.shown (loop_body M noise p i st) = Loop.shown st.
Proof.
  intros Hz. cbn [loop_body Loop.shown].
  assert (E : (rem (of_nat i) (Math_floor (n_steps p / 20)) =? 0) = false).
  { apply FloatFacts.is_zero_inv in Hz. destruct Hz as [s Es].
    unfold rem. rewrite Es. destruct (Prim2SF (of_nat i)); reflexivity. }
  rewrite E. reflexivity.
Qed.

End ShortRunFacts.

(** X13. A run of fewer than 20 steps reports no progress: the modulus
    [Math.floor(n_steps / 20)] of line 72 is 0, [i % 0] is NaN, and the test
    fails at every step, so the value shown stays the 0 set at the start
    until the run ends. *)
Theorem short_run_reports_no_progress (M : JsMath) (noise : nat -> float)
  (p : Params) (n k : nat) :
  trip_count (t_end p / dt p) = Some n -> (n < 20)%nat -> (k <= n)%nat ->
  Loop.shown (run_loop M noise p k) = 0.
Proof.
  intros H Hn Hk. induction k as [|k IH].
  - reflexivity.
  - rewrite run_loop_S, loop_body_silent; [apply IH; lia|].
    apply (short_run_modulus p n H). lia.
Qed.

(** ** The downsampling factor *)

Module FactorFacts.
Import RoundFacts ExactFacts.
Local Open Scope Z_scope.

(** The quotient by 5000 of an integer below 2^52, as the division rounds
    it: its integer part is the integer quotient. *)
Lemma quotient_5000 (n N c : Z) :
  2 ^ 52 <= N < 2 ^ 53 -> -52 <= c <= -1 -> N = n * 2 ^ (- c) ->
  exists N' e',
    SF64div (S754_finite false (Z.to_pos N) c)
            (S754_finite false 5497558138880000 (-40))
    = S754_finite false (Z.to_pos N') e' /\
    0 < N' /\ e' < 0 /\ Z.shiftl N' e' = n / 5000.
Proof.
  intros HN Hc Hv.
  assert (Hn : 0 < n).
  { assert (0 < 2 ^ (- c)) by (apply Z.pow_pos_nonneg; lia). nia. }
  unfold SF64div, SFdiv, SFdiv_core_binary. cbn [xorb].
  rewrite Z2Pos.id by lia.
  rewrite (Zdigits2_unique N 53) by lia.
  change (Zdigits2 (Zpos 5497558138880000)) with 53.
  match goal with |- context [Z.min ?a ?b] =>
    replace (Z.min a b) with (c - 13)
      by (unfold fexp, SpecFloat.emin, prec, emax; lia) end.
  replace (c - -40 - (c - 13)) with 53 by lia. cbv iota beta.
  pose proof (Z_div_mod (Z.shiftl N 53) (Zpos 5497558138880000) ltac:(lia)) as Hdiv.
  rewrite Z.shiftl_mul_pow2 in * by lia.
  destruct (Z.div_eucl (N * 2 ^ 53) (Zpos 5497558138880000)) as [q r].
  destruct Hdiv as [Hq Hr].
  (* n = 5000 k + j, and the quotient in units of 2^(c - 13) *)
  pose proof (Z.div_mod n 5000 ltac:(lia)) as Hk.
  pose proof (Z.mod_pos_bound n 5000 ltac:(lia)) as Hj.
  set (k := n / 5000) in *. set (j := n mod 5000) in *.
  assert (Hk0 : 0 <= k) by (apply Z.div_pos; lia).
  destruct (Z.lt_ge_cases q (2 ^ 53)) as [Hlt|Hge].
  - destruct (round_aux_53 q (c - 13) (new_location (Zpos 5497558138880000) r))
      as (N' & HN' & E); [lia | lia | lia |].
    exists N', (c - 13). split; [|split; [lia|split; [lia|]]].
    + rewrite E. destruct (Z.leb_spec (c - 13) 971); [reflexivity | lia].
    + rewrite Z.shiftl_div_pow2 by lia.
      replace (- (c - 13)) with (13 - c) by lia.
      set (g := 2 ^ (13 - c)).
      assert (Hg : 2 ^ 14 <= g) by (apply Z.pow_le_mono_r; lia).
      assert (Eg : N * 2 ^ 53 = 2 ^ 40 * (n * g)).
      { rewrite Hv. unfold g.
        replace (13 - c) with (- c + 13) by lia. rewrite Z.pow_add_r by lia.
        lia. }
      set (X := k * g). set (Y := j * g).
      assert (EX : n * g = 5000 * X + Y) by (unfold X, Y; rewrite Hk; ring).
      assert (HY : 0 <= Y <= 4999 * g) by (unfold Y; nia).
      symmetry. apply (Z.div_unique N' g k (N' - X)); [|unfold X; ring].
      left. lia.
  - destruct (round_aux_54 q (c - 13) (new_location (Zpos 5497558138880000) r))
      as (N' & HN' & E).
    + exact Hge.
    + pose proof (Z.div_mod q 2); pose proof (Z.mod_pos_bound q 2); lia.
    + lia.
    + pose proof (Z.div_mod q 2 ltac:(lia)) as Hh.
      pose proof (Z.mod_pos_bound q 2 ltac:(lia)) as Hb.
      exists N', (c - 13 + 1). split; [|split; [lia|split; [lia|]]].
      * rewrite E. destruct (Z.leb_spec (c - 13 + 1) 971); [reflexivity | lia].
      * rewrite Z.shiftl_div_pow2 by lia.
        replace (- (c - 13 + 1)) with (12 - c) by lia.
        set (g := 2 ^ (12 - c)).
        assert (Hg : 2 ^ 13 <= g) by (apply Z.pow_le_mono_r; lia).
        assert (Eg : N * 2 ^ 53 = 2 ^ 40 * (2 * (n * g))).
        { rewrite Hv. unfold g.
          replace (12 - c) with (- c + 12) by lia. rewrite Z.pow_add_r by lia.
          lia. }
        set (X := k * g). set (Y := j * g).
        assert (EX : n * g = 5000 * X + Y) by (unfold X, Y; rewrite Hk; ring).
        assert (HY : 0 <= Y <= 4999 * g) by (unfold Y; nia).
        symmetry. apply (Z.div_unique N' g k (N' - X)); [|unfold X; ring].
        left. lia.
Qed.

End FactorFacts.

Section FactorArithmetic.
Import JsNum RoundFacts ExactFacts FactorFacts.
Local Open Scope Z_scope.

Lemma floor_quotient (n : Z) :
  0 < n < 2 ^ 52 -> Math_floor (of_Z n / 5000) = of_Z (n / 5000).
Proof.
  intros Hn. destruct (of_Z_exact n ltac:(lia)) as (N & c & HN & Hc & Hv & E).
  assert (Hc' : c <= -1).
  { destruct (Z.eq_dec c 0) as [->|]; [|lia]. cbn in Hv. lia. }
  destruct (quotient_5000 n N c HN ltac:(lia) Hv) as (N' & e' & Ediv & HN' & He' & Hfl).
  unfold Math_floor. rewrite div_spec, E.
  change (Prim2SF 5000) with (S754_finite false 5497558138880000 (-40)).
  rewrite Ediv. destruct (Z.leb_spec 0 e'); [lia|].
  cbn [cond_Zopp].
  replace (Zpos (Z.to_pos N')) with N' by (symmetry; apply Z2Pos.id; lia).
  rewrite Hfl. reflexivity.
Qed.

Lemma finite_not_nan (u : float) (s : bool) (m : positive) (e : Z) :
  Prim2SF u = S754_finite s m e -> is_nan u = false.
Proof.
  intros E. destruct (is_nan u) eqn:En; [|reflexivity].
  apply NanFacts.is_nan_true_inv in En. congruence.
Qed.

(** [Math.max(1, k)] on an integer. *)
Lemma max_one_integer (k : Z) :
  0 <= k < 2 ^ 53 -> Math_max [1%float; of_Z k] = of_Z (Z.max 1 k).
Proof.
  intros Hk.
  destruct (Z.eq_dec k 0) as [->|H0]; [reflexivity|].
  destruct (Z.eq_dec k 1) as [->|H1]; [reflexivity|].
  replace (Z.max 1 k) with k by lia.
  destruct (of_Z_exact k ltac:(lia)) as (N & c & HN & Hc & Hv & E).
  unfold Math_max. cbn [Math_max_from].
  change (is_nan 1) with false. cbv iota.
  rewrite (finite_not_nan _ _ _ _ E).
  change (max_step neg_infinity 1) with 1%float.
  unfold max_step. change (is_zero 1) with false. rewrite andb_false_r.
  assert (Elt : (1 <? of_Z k)%float = true).
  { rewrite FloatAxioms.ltb_spec, E.
    change (Prim2SF 1) with (S754_finite false 4503599627370496 (-52)).
    unfold SFltb, SFcompare.
    destruct (Z.compare_spec (-52) c) as [Ec|Ec|Ec]; try reflexivity; [|lia].
    subst c. change (- -52) with 52 in Hv.
    rewrite Pos.compare_cont_spec. cbn [Pos.switch_Eq].
    rewrite Pos2Z.inj_compare, Z2Pos.id by lia.
    assert (Hlt : 4503599627370496 < N) by lia.
    apply Z.compare_lt_iff in Hlt. rewrite Hlt. reflexivity. }
  rewrite Elt. reflexivity.
Qed.

End FactorArithmetic.

Section FactorOfRun.
Import JsNum.

Lemma downsample_exact (p : Params) (n : nat) :
  trip_count (t_end p / dt p) = Some n -> (0 < n)%nat ->
  (Z.of_nat n < 2 ^ 52)%Z ->
  downsample p = of_Z (Z.max 1 (Z.of_nat n / 5000)).
Proof.
  intros H Hn Hlt. unfold downsample, n_steps.
  rewrite (n_steps_exact _ n H Hn Hlt). unfold of_nat.
  rewrite floor_quotient by lia.
  apply max_one_integer.
  split; [apply Z.div_pos; lia|].
  apply Z.le_lt_trans with (Z.of_nat n); [|lia].
  apply Z.div_le_upper_bound; lia.
Qed.

(** The number c of multiples of D below n: n <= D c < n + D. *)
Lemma count_multiples (D n : nat) :
  (0 < D)%nat ->
  let c := length (filter (fun i => (i mod D =? 0)%nat) (seq 0 n)) in
  (n <= D * c < n + D)%nat.
Proof.
  intros HD. induction n as [|n IH]; cbv zeta in *.
  - cbn [seq filter length]. lia.
  - rewrite seq_S, filter_app, length_app. cbn [Nat.add filter].
    pose proof (Nat.div_mod_eq n D) as Hdm.
    pose proof (Nat.mod_upper_bound n D ltac:(lia)) as Hm.
    set (c := length (filter _ (seq 0 n))) in *.
    destruct (Nat.eqb_spec (n mod D) 0) as [E|E]; cbn [length].
    + rewrite E, Nat.add_0_r in Hdm.
      assert (Hc1 : ~ (c < n / D)%nat) by nia.
      assert (Hc2 : ~ (n / D < c)%nat) by nia.
      assert (Ec : c = (n / D)%nat) by lia.
      rewrite Ec. nia.
    + assert (D * c <> n)%nat.
      { intros Hc. apply E. rewrite <- Hc, Nat.mul_comm. apply Nat.Div0.mod_mul. }
      rewrite Nat.add_0_r. lia.
Qed.

End FactorOfRun.

(** X14. The downsampling factor of a run of n steps, 0 < n < 2^52, is
    D = max(1, floor(n / 5000)), and the stored samples are those of the
    steps 0, D, 2 D, ...: the trajectory holds the position in units of
    x_0 after each step below n that D divides, and [times] the matching
    i dt 1e6.  A run of fewer than 5000 steps stores every step; a longer
    one stores between 5000 and 10000 samples. *)
Theorem downsampling_factor (M : JsMath) (noise : nat -> float) (p : Params)
  (n : nat) :
  trip_count (t_end p / dt p) = Some n -> (0 < n)%nat ->
  (Z.of_nat n < 2 ^ 52)%Z ->
  let D := Z.max 1 (Z.of_nat n / 5000) in
  let st := run_loop M noise p n in
  let kept := filter (fun i => (i mod Z.to_nat D =? 0)%nat) (seq 0 n) in
  downsample p = JsNum.of_Z D /\
  Loop.trajectory st
  = map (fun i => Loop.x (run_loop M noise p (S i)) / x_0) kept /\
  Loop.times st = map (fun i => JsNum.of_nat i * dt p * 1e6) kept /\
  ((Z.of_nat n < 5000)%Z -> length (Loop.trajectory st) = n) /\
  ((5000 <= Z.of_nat n)%Z ->
   (5000 <= Z.of_nat (length (Loop.trajectory st)) <= 10000)%Z).
Proof.
  intros H Hn Hlt D st kept.
  pose proof (downsample_exact p n H Hn Hlt) as Hd. fold D in Hd.
  pose proof (Z.div_mod (Z.of_nat n) 5000 ltac:(lia)) as Hdm.
  pose proof (Z.mod_pos_bound (Z.of_nat n) 5000 ltac:(lia)) as Hm.
  assert (Hq : (0 <= Z.of_nat n / 5000)%Z) by (apply Z.div_pos; lia).
  assert (HD : (1 <= D <= Z.of_nat n)%Z) by (unfold D; lia).
  destruct (run_loop_stored M noise p n) as [Hx Ht].
  assert (Ek : stored_steps p n = kept).
  { unfold stored_steps, kept. apply filter_ext_in. intros i Hin.
    apply in_seq in Hin. apply stored_stride; try lia.
    rewrite Hd. unfold JsNum.of_nat. rewrite Z2Nat.id by lia. reflexivity. }
  subst st. rewrite Hx, Ht, Ek, length_map.
  pose proof (count_multiples (Z.to_nat D) n ltac:(lia)) as Hc.
  cbv zeta in Hc. fold kept in Hc.
  split; [exact Hd|]. split; [|split; [reflexivity|split]].
  - apply map_ext. intros i. rewrite run_loop_x. reflexivity.
  - intros Hs. assert (ED : D = 1%Z).
    { unfold D. rewrite Z.div_small by lia. reflexivity. }
    rewrite ED in Hc. change (Z.to_nat 1) with 1%nat in Hc. lia.
  - intros Hl. assert (ED : D = (Z.of_nat n / 5000)%Z) by (unfold D; lia).
    assert (Ec : (Z.of_nat n <= D * Z.of_nat (length kept) < Z.of_nat n + D)%Z).
    { rewrite <- (Z2Nat.id D) at 1 3 by lia. rewrite <- Nat2Z.inj_mul. lia. }
    rewrite ED in Ec. set (d := (Z.of_nat n / 5000)%Z) in *.
    set (c := Z.of_nat (length kept)) in *. nia.
Qed.

(** ** The further theorems at concrete inputs *)

Lemma runSimulation_random_witness :
  runSimulation_random RefMath.math RefMath.ln uniforms 1 three_steps idle
  = Some (runSimulation RefMath.math
            (gaussian_noise RefMath.math RefMath.ln uniforms) three_steps idle).
Proof.
  apply (runSimulation_random_spec RefMath.math RefMath.ln uniforms 0 three_steps idle).
  intros j. unfold uniforms. destruct (Nat.even j); reflexivity.
Defined.

Lemma nan_poisons_run_witness :
  is_nan (Loop.x (run_loop RefMath.math broken three_steps 3)) = true /\
  Loop.switchCount (run_loop RefMath.math broken three_steps 3)
  = Loop.switchCount (run_loop RefMath.math broken three_steps 1).
Proof.
  apply (nan_poisons_run RefMath.math broken three_steps 1 3).
  - left. reflexivity.
  - lia.
Defined.

Lemma calculateSNR_nan_witness :
  is_nan (calculateSNR
            [ {| SpectrumEntry.freq := 0; SpectrumEntry.power := -1.5 |};
              {| SpectrumEntry.freq := 10; SpectrumEntry.power := nan |} ]) = true.
Proof.
  apply calculateSNR_nan. right. left. reflexivity.
Defined.

Lemma downsampling_factor_witness :
  downsample three_steps = 1 /\
  length (Loop.trajectory (run_loop RefMath.math kicks three_steps 3)) = 3%nat.
Proof.
  destruct (downsampling_factor RefMath.math kicks three_steps 3)
    as (Hd & _ & _ & Hall & _).
  - vm_compute. reflexivity.
  - lia.
  - lia.
  - split; [exact Hd | apply Hall; lia].
Defined.

Lemma first_sample_stored_witness :
  hd_error (Loop.trajectory (run_loop RefMath.math kicks three_steps 3))
  = Some (Loop.x (run_loop RefMath.math kicks three_steps 1) / x_0) /\
  (0 < length (Loop.trajectory (run_loop RefMath.math kicks three_steps 3)) <= 3)%nat.
Proof.
  apply (first_sample_stored RefMath.math kicks three_steps 2).
  vm_compute. reflexivity.
Defined.

Lemma zero_frequency_entry_witness :
  hd_error (computeSimplePowerSpectrum RefMath.math seven_samples)
  = Some (let sum := fold_left (fun a b => a + b) seven_samples 0 in
          let N := JsNum.of_nat (length seven_samples) in
          {| SpectrumEntry.freq := 0;
             SpectrumEntry.power :=
               Math_log10 RefMath.math (sum * sum / (N * N) + 1e-10) |}).
Proof.
  apply (zero_frequency_entry RefMath.math seven_samples).
  - vm_compute. reflexivity.
  - reflexivity.
  - discriminate.
  - cbn [length seven_samples]. lia.
  - repeat constructor.
Defined.

Lemma nan_reaches_mean_witness :
  exists r,
    runSimulation RefMath.math broken three_steps idle
    = Returns {| isRunning := false; progress := 100; results := Some r |} /\
    is_nan (mean (metrics r)) = true.
Proof.
  apply (nan_reaches_mean RefMath.math broken three_steps idle 1 1 3).
  - vm_compute. reflexivity.
  - reflexivity.
  - lia.
  - vm_compute. reflexivity.
Defined.

Lemma short_run_witness :
  Loop.shown (run_loop RefMath.math kicks three_steps 3) = 0.
Proof.
  apply (short_run_reports_no_progress RefMath.math kicks three_steps 3 3).
  - vm_compute. reflexivity.
  - lia.
  - lia.
Defined.
